(** * syncedlyrics-helper: the fetch-orchestration pipeline

    A shallow embedding of [src/syncedlyrics-helper.py] (classes [Downloader]
    and [Crawler]) and the properties of its specification.

    Conventions of the embedding.
    - A Python [str] is the Rocq [string] of its UTF-8 encoding, one [ascii]
      for each byte. Concatenation, comparison, the substring test and the
      search for an ASCII character read the same on the bytes and on the
      characters. [str.lower] and [str.upper], which follow the Unicode case
      tables, are parameters of the model.
    - An [Optional[str]] attribute of a [TinyTag] object is an [option string];
      an f-string prints [None] as the four characters [None].
    - [pathlib.Path] is the list of its parts, the last part being [name];
      [suffix] and [with_suffix] are those of CPython up to 3.12.
      [Path.resolve], which makes a path absolute and follows links, is a
      parameter of the model; a path exists when something is stored at
      the path it resolves to.
    - Files are text files as on POSIX: a written line feed is stored as one
      character, and a read in text mode translates newlines.
    - Of the failures of the system the model has a ledger file that is
      missing or refuses to be opened, [with_suffix] on a path without name
      and a file that the tag reader rejects. A run in which another call
      fails (a ledger file that does not decode, a directory that cannot be
      written to, a broken link handed to the tag reader) is not followed.
    - The program runs in a state-and-exception monad [M] that also collects
      the observable events of a call: the records handed to the logger and
      the calls made to [syncedlyrics.search].
    - The two third-party collaborators ([TinyTag.get], [syncedlyrics.search])
      are parameters of the model. The search may answer differently from
      one call to the next: it is given the number of the call. *)

From Stdlib Require Import String Ascii List Bool Arith Lia.
From stdpp Require Import base option list gmap sets strings.

Local Open Scope string_scope.
Local Open Scope list_scope.

(** ** Python strings *)

Module Str.

(** The line feed, Python's ["\n"]. *)
Definition LF : ascii := "010"%char.
(** The carriage return, Python's ["\r"]. *)
Definition CR : ascii := "013"%char.

Definition nl : string := String LF EmptyString.

(** [s.startswith(p)] *)
Fixpoint startswith (p s : string) : bool :=
  match p, s with
  | EmptyString, _ => true
  | String _ _, EmptyString => false
  | String a p', String b s' => Ascii.eqb a b && startswith p' s'
  end.

(** [needle in hay] on two strings: the substring test. *)
Fixpoint contains (needle hay : string) : bool :=
  startswith needle hay ||
  match hay with
  | EmptyString => false
  | String _ hay' => contains needle hay'
  end.

(** [c in s] for one character. *)
Fixpoint has_char (c : ascii) (s : string) : bool :=
  match s with
  | EmptyString => false
  | String a s' => Ascii.eqb a c || has_char c s'
  end.

(** [s.split("\n")]: never empty, [""] splits into [[""]]. *)
Fixpoint split_nl (s : string) : list string :=
  match s with
  | EmptyString => [EmptyString]
  | String c s' =>
      if Ascii.eqb c LF then EmptyString :: split_nl s'
      else match split_nl s' with
           | [] => [String c EmptyString]
           | l :: ls => String c l :: ls
           end
  end.

(** [s.count("\n")] *)
Fixpoint count_nl (s : string) : nat :=
  match s with
  | EmptyString => 0
  | String c s' => (if Ascii.eqb c LF then 1 else 0) + count_nl s'
  end.

(** [s.endswith("\n")] *)
Fixpoint ends_with_nl (s : string) : bool :=
  match s with
  | EmptyString => false
  | String c EmptyString => Ascii.eqb c LF
  | String _ s' => ends_with_nl s'
  end.

(** What a text-mode read ([open(path, "r")], [newline=None]) hands back
    for the characters stored in the file. Universal newlines: every
    ["\r\n"] and every lone ["\r"] arrives as ["\n"]. The decoder goes
    through the characters once and remembers whether the last one was a
    carriage return ([pending_cr]), so as to drop the line feed of a
    ["\r\n"] pair. *)
Fixpoint translate_newlines (pending_cr : bool) (s : string) : string :=
  match s with
  | EmptyString => EmptyString
  | String c s' =>
      if Ascii.eqb c CR then String LF (translate_newlines true s')
      else if Ascii.eqb c LF && pending_cr then translate_newlines false s'
      else String c (translate_newlines false s')
  end.

Definition universal_newlines (s : string) : string :=
  translate_newlines false s.

(** [s[i:]] and [s[:i]] for [0 <= i]. *)
Fixpoint drop (i : nat) (s : string) : string :=
  match i, s with
  | 0, _ => s
  | S _, EmptyString => EmptyString
  | S i', String _ s' => drop i' s'
  end.

Fixpoint take (i : nat) (s : string) : string :=
  match i, s with
  | 0, _ => EmptyString
  | S _, EmptyString => EmptyString
  | S i', String c s' => String c (take i' s')
  end.

(** [s.rfind(".")], with [None] for Python's [-1]. *)
Fixpoint rfind_dot (s : string) : option nat :=
  match s with
  | EmptyString => None
  | String c s' =>
      match rfind_dot s' with
      | Some i => Some (S i)
      | None => if Ascii.eqb c "."%char then Some 0 else None
      end
  end.

(** How an f-string prints an [Optional[str]]. *)
Definition fmt (o : option string) : string :=
  match o with
  | Some s => s
  | None => "None"
  end.

End Str.

(** ** Exceptions and results *)

Inductive exn : Type :=
| FileNotFoundError
| PermissionError
| ValueError
| AttributeError
| TinyTagException.

Inductive res (A : Type) : Type :=
| Ok (a : A)
| Raise (e : exn).
Arguments Ok {A} a.
Arguments Raise {A} e.

(** ** pathlib *)

Module Pathlib.

(** A path is the list of its parts, [list string].

    [path.name]: the last part, [""] when there is none. *)
Definition name (p : list string) : string := List.last p "".

(** [PurePath.suffix] of a file name: the text from the last dot on, when
    that dot is neither the first nor the last character. *)
Definition suffix_of (nm : string) : string :=
  match Str.rfind_dot nm with
  | Some i => if Nat.ltb 0 i && Nat.ltb i (String.length nm - 1) then Str.drop i nm else ""
  | None => ""
  end.

Definition suffix (p : list string) : string := suffix_of (name p).

(** [path / child] *)
Definition joinpath (p : list string) (child : string) : list string := p ++ [child].

(** [PurePath.with_suffix]: [ValueError] on an invalid suffix and on a
    path with an empty name. *)
Definition with_suffix (p : list string) (sfx : string) : res (list string) :=
  if Str.has_char "/"%char sfx then Raise ValueError
  else if (negb (String.eqb sfx "") && negb (Str.startswith "." sfx))
          || String.eqb sfx "."
  then Raise ValueError
  else
    let nm := name p in
    if String.eqb nm "" then Raise ValueError
    else
      let old_suffix := suffix p in
      let nm' :=
        if String.eqb old_suffix "" then nm +:+ sfx
        else Str.take (String.length nm - String.length old_suffix) nm +:+ sfx in
      Ok (removelast p ++ [nm']).

End Pathlib.
Export Pathlib.

(** ** The data the program works on *)

(** A [TinyTag] object, as far as the program reads it. *)
Record TinyTag : Type := mkTinyTag {
  title : option string;
  artist : option string;
  genre : option string
}.

(** What [syncedlyrics.search] does on one call: the text it returns
    ([None] when nothing was found) and whether it wrote [save_path]. *)
Record reply : Type := mkReply {
  lrc : option string;
  wrote_file : bool
}.

(** The ledger file [unsuccessful_fetches.txt] in the working directory:
    absent, present but not openable, or a text file with its characters. *)
Inductive file_state : Type :=
| Missing
| NoAccess
| Text (content : string).

(** The part of the outside world the program reads and writes: the ledger
    file, the resolved paths at which something is stored, and how many
    searches were answered so far. The ledger file is kept apart: [existing]
    speaks of the other paths, among them the lyrics paths. *)
Record World : Type := mkWorld {
  ledger_file : file_state;
  existing : gset (list string);
  calls : nat
}.

(** The fields of a [Downloader] object. *)
Record Downloader : Type := mkDownloader {
  f_unsuccessful_fetches : string;
  unsuccessful_fetches : gset string;
  blacklisted_genres : list string;
  lyrics_providers : list string
}.

(** The running program: the fields of the [Crawler] object and the world. *)
Record Process : Type := mkProcess {
  success_count : nat;
  downloader : Downloader;
  world : World
}.

(** A directory tree as [is_dir] and [iterdir] show it, entries in the
    order [iterdir] yields them. *)
#[warnings="-register-all"]
Inductive tree : Type :=
| File
| Dir (entries : list (string * tree)).

(** *** Observable events *)

Inductive level : Type := DEBUG | INFO | ERROR.

(** The log records of the program, one constructor per format string. *)
Inductive message : Type :=
| msg_not_a_song (filename : list string)
    (* f"{filename} is not a song" *)
| msg_tried_before (keywords : string)
    (* f"Skipping {keywords} since it's been tried before" *)
| msg_genre_skipped (title genre : option string)
    (* f"song {tags.title} was skipped because it was of the genre: {tags.genre}" *)
| msg_has_lyrics (title : option string)
    (* f"{title} already has an associated lyrics file" *)
| msg_fetching (title genre : option string)
    (* f"Fetching lyrics for {title} ({tags.genre})" *)
| msg_not_found (title : option string).
    (* f"Couldn't find lyrics for {title}" *)

Inductive event : Type :=
| Log (lvl : level) (msg : message)
| SearchCall (keywords : string) (save_path : list string) (providers : list string).

(** *** Outcomes of the specification *)

Inductive reason : Type :=
| not_audio
| known_failure
| blacklisted_genre
| already_has_lyrics.

Inductive outcome : Type :=
| Skipped (r : reason)
| Fetched
| NotFound.

(** ** The monad of the program

    A computation starts in a [Process] and ends with a value or a raised
    exception, the process it left behind and the events it emitted. *)

Definition M (A : Type) : Type := Process -> res A * Process * list event.

Definition ret {A} (a : A) : M A := fun p => (Ok a, p, []).

Definition bind {A B} (m : M A) (k : A -> M B) : M B :=
  fun p =>
    match m p with
    | (Ok a, p', evs) =>
        let '(r, p'', evs') := k a p' in (r, p'', evs ++ evs')
    | (Raise e, p', evs) => (Raise e, p', evs)
    end.

Definition raise {A} (e : exn) : M A := fun p => (Raise e, p, []).

Definition lift {A} (r : res A) : M A := fun p => (r, p, []).

Definition exn_eqb (a b : exn) : bool :=
  match a, b with
  | FileNotFoundError, FileNotFoundError
  | PermissionError, PermissionError
  | ValueError, ValueError
  | AttributeError, AttributeError
  | TinyTagException, TinyTagException => true
  | _, _ => false
  end.

(** [try: m  except e: handler] *)
Definition try_except {A} (m : M A) (e : exn) (handler : M A) : M A :=
  fun p =>
    match m p with
    | (Raise e', p', evs) =>
        if exn_eqb e e'
        then let '(r, p'', evs') := handler p' in (r, p'', evs ++ evs')
        else (Raise e', p', evs)
    | done => done
    end.

Definition emit (ev : event) : M unit := fun p => (Ok tt, p, [ev]).

(** [log.debug], [log.info], [log.error] *)
Definition log (lvl : level) (msg : message) : M unit := emit (Log lvl msg).

Definition get_self : M Downloader := fun p => (Ok (downloader p), p, []).

Definition get_world : M World := fun p => (Ok (world p), p, []).

Definition put_world (w : World) : M unit :=
  fun p => (Ok tt, mkProcess (success_count p) (downloader p) w, []).

Declare Scope py_scope.
Delimit Scope py_scope with py.
Notation "x <- m ;; k" := (bind m (fun x => k))
  (at level 100, m at next level, right associativity) : py_scope.
Notation "m ;; k" := (bind m (fun _ => k))
  (at level 100, right associativity) : py_scope.
Local Open Scope py_scope.

(** ** Files *)

(** [open(name, "r")] followed by [file.read()]. *)
Definition open_read (f : file_state) : res string :=
  match f with
  | Missing => Raise FileNotFoundError
  | NoAccess => Raise PermissionError
  | Text s => Ok (Str.universal_newlines s)
  end.

(** [open(name, "a")] followed by [file.write(data)]: the file as it is
    afterwards. A missing file is created. *)
Definition open_append (data : string) (f : file_state) : res file_state :=
  match f with
  | Missing => Ok (Text data)
  | NoAccess => Raise PermissionError
  | Text s => Ok (Text (s +:+ data))
  end.

(** [bool(lrc)] for an [Optional[str]]. *)
Definition truthy (o : option string) : bool :=
  match o with
  | Some (String _ _) => true
  | _ => false
  end.

(** ** class Downloader: construction *)

(** [Downloader.load_unsuccessful_fetches]. Only [FileNotFoundError] is
    caught; the empty dict [{}] it returns then is used for membership tests
    only and is the empty set here. *)
Definition load_unsuccessful_fetches (w : World) : res (gset string) :=
  match open_read (ledger_file w) with
  | Ok text => Ok (list_to_set (Str.split_nl text))
  | Raise FileNotFoundError => Ok ∅
  | Raise e => Raise e
  end.

(** [Downloader.__init__] *)
Definition Downloader_init (blacklist : list string) (w : World) : res Downloader :=
  match load_unsuccessful_fetches w with
  | Ok fetches =>
      Ok (mkDownloader "unsuccessful_fetches.txt" fetches blacklist
            ["Deezer"; "Lrclib"; "NeatEase"; "Megalobiz"])
  | Raise e => Raise e
  end.

(** The search key of a track, [f"{title} {tags.artist}"]. *)
Definition fetch_key (tags : TinyTag) : string :=
  Str.fmt (title tags) +:+ " " +:+ Str.fmt (artist tags).

(** The outcome of the specification that a call of [run] stands for, read
    off what it returned and the last record it logged. *)
Definition outcome_of (returned : bool) (evs : list event) : option outcome :=
  if returned then Some Fetched
  else
    match last evs with
    | Some (Log _ (msg_not_a_song _)) => Some (Skipped not_audio)
    | Some (Log _ (msg_tried_before _)) => Some (Skipped known_failure)
    | Some (Log _ (msg_genre_skipped _ _)) => Some (Skipped blacklisted_genre)
    | Some (Log _ (msg_has_lyrics _)) => Some (Skipped already_has_lyrics)
    | Some (Log _ (msg_not_found _)) => Some NotFound
    | _ => None
    end.

Definition is_search (ev : event) : bool :=
  match ev with
  | SearchCall _ _ _ => true
  | Log _ _ => false
  end.

(** The paths [recursive_download] hands to [download_lyrics], in order. *)
Fixpoint files_of (node : tree) (path : list string) : list (list string) :=
  match node with
  | File => [path]
  | Dir entries =>
      (fix each (es : list (string * tree)) : list (list string) :=
         match es with
         | [] => []
         | (nm, item) :: es' => files_of item (joinpath path nm) ++ each es'
         end) entries
  end.

(** The ledger files the program itself produces: none yet, or text whose
    last line is finished. *)
Definition well_formed_ledger (f : file_state) : bool :=
  match f with
  | Missing => true
  | NoAccess => false
  | Text s => String.eqb s "" || Str.ends_with_nl s
  end.

(** The number of finished lines of the ledger file. *)
Definition line_count (f : file_state) : nat :=
  match f with
  | Text s => Str.count_nl s
  | _ => 0
  end.

(** The characters of the ledger file, none when there is no file. *)
Definition file_text (f : file_state) : string :=
  match f with
  | Text s => s
  | _ => ""
  end.

(** What [load_unsuccessful_fetches] makes of the characters of a file. *)
Definition lines_read (s : string) : list string :=
  Str.split_nl (Str.universal_newlines s).

(** The part of a file name that [with_suffix] keeps. *)
Definition stem_of (nm : string) : string :=
  if String.eqb (suffix_of nm) "" then nm
  else Str.take (String.length nm - String.length (suffix_of nm)) nm.

(** The world after a search answered with [r] for [save_path]. *)
Definition after_search (r : reply) (save_path : list string) (w : World) : World :=
  mkWorld (ledger_file w)
    (if wrote_file r then {[save_path]} ∪ existing w else existing w)
    (S (calls w)).

Definition with_world (p : Process) (w : World) : Process :=
  mkProcess (success_count p) (downloader p) w.

(** How the ledger file can differ between two moments of a run: not at
    all, or by finished lines appended to it. *)
Definition ledger_extends (f f' : file_state) : Prop :=
  f' = f \/
  (f <> NoAccess /\
   exists data, Str.ends_with_nl data = true /\ f' = Text (file_text f +:+ data)).

(** How the world can differ between two moments of a run: paths are only
    added and the ledger file only grows. *)
Definition grows (w w' : World) : Prop :=
  existing w ⊆ existing w' /\
  ledger_extends (ledger_file w) (ledger_file w').

(** The ledger file holds the line [k], written after finished lines and
    followed by finished lines. *)
Definition recorded (k : string) (f : file_state) : Prop :=
  exists a b,
    f = Text (a +:+ k +:+ Str.nl +:+ b) /\
    (a = "" \/ Str.ends_with_nl a = true) /\
    (b = "" \/ Str.ends_with_nl b = true).

(** A key that is read back as it was written: no line feed and no
    carriage return in it. *)
Definition plain (k : string) : Prop :=
  Str.has_char Str.LF k = false /\ Str.has_char Str.CR k = false.

(** ** The tree below a path *)

(** [file_below node path f]: [f] is a file of the tree [node] found at
    [path], reached through the entries of its directories. *)
Inductive file_below : tree -> list string -> list string -> Prop :=
| file_here (path : list string) : file_below File path path
| file_in_dir (entries : list (string * tree)) (path : list string)
    (nm : string) (item : tree) (f : list string) :
    (nm, item) ∈ entries ->
    file_below item (joinpath path nm) f ->
    file_below (Dir entries) path f.

(** *** Counting events *)

Definition is_not_found (ev : event) : bool :=
  match ev with
  | Log _ (msg_not_found _) => true
  | _ => false
  end.

Definition count_events (which : event -> bool) (evs : list event) : nat :=
  length (List.filter which evs).

(** ** The command line: the log level *)

Module Cli.

(** The numbers of [logging.DEBUG], [logging.INFO], [logging.WARNING] and
    [logging.ERROR]. *)
Definition log_dict : gmap string nat :=
  list_to_map [("DEBUG", 10); ("INFO", 20); ("WARNING", 30); ("ERROR", 40)].

(** [LOG_LEVEL = log_dict.get(args.log_level.upper(), "INFO")]: a number of
    the dict, or the default, which is the string [INFO]. [upper] stands
    for [str.upper]. *)
Definition LOG_LEVEL (upper : string -> string) (log_level : string) : nat + string :=
  match log_dict !! upper log_level with
  | Some n => inl n
  | None => inr "INFO"
  end.

(** The level names that [logging] knows. *)
Definition name_to_level : gmap string nat :=
  list_to_map
    [("CRITICAL", 50); ("FATAL", 50); ("ERROR", 40); ("WARN", 30);
     ("WARNING", 30); ("INFO", 20); ("DEBUG", 10); ("NOTSET", 0)].

(** What [setLevel] makes of its argument: a number is taken as it is, a
    name is looked up, and an unknown name is a [ValueError]. *)
Definition check_level (lvl : nat + string) : res nat :=
  match lvl with
  | inl n => Ok n
  | inr nm =>
      match name_to_level !! nm with
      | Some n => Ok n
      | None => Raise ValueError
      end
  end.

(** The number of the level of a record of the program. *)
Definition levelno (lvl : level) : nat :=
  match lvl with
  | DEBUG => 10
  | INFO => 20
  | ERROR => 40
  end.

(** Whether a record of level [lvl] passes the logger and the handler, both
    set to [LOG_LEVEL]. *)
Definition shown (upper : string -> string) (log_level : string) (lvl : level) : bool :=
  match check_level (LOG_LEVEL upper log_level) with
  | Ok n => Nat.leb n (levelno lvl)
  | Raise _ => false
  end.

End Cli.

(** ** A plain setting, for the examples *)

Module Plain.

Definition lower_char (c : ascii) : ascii :=
  let n := nat_of_ascii c in
  if Nat.leb 65 n && Nat.leb n 90 then ascii_of_nat (n + 32) else c.

(** What [s.lower()] is for ASCII text, as the text of the examples is. *)
Fixpoint lower (s : string) : string :=
  match s with
  | EmptyString => EmptyString
  | String c s' => String (lower_char c) (lower s')
  end.

(** What [path.resolve()] is where there are no links and every path is
    written from the root. *)
Definition resolve (p : list string) : list string := p.

(** What [path.resolve()] is where there are no links and the working
    directory is [/home/user]. *)
Definition from_home (p : list string) : list string :=
  "/" :: "home" :: "user" :: p.

End Plain.

(** ** A nested music library, for more examples *)

Module Sample.

(** [music/readme.txt], [music/album/one.mp3] and [music/album/two.mp3]. *)
Definition shelf : tree :=
  Dir [("readme.txt", File);
       ("album", Dir [("one.mp3", File); ("two.mp3", File)])].

Definition one : list string := ["music"; "album"; "one.mp3"].
Definition two : list string := ["music"; "album"; "two.mp3"].
Definition readme : list string := ["music"; "readme.txt"].

Definition one_tags : TinyTag := mkTinyTag (Some "One") (Some "Band") (Some "Jazz").
Definition two_tags : TinyTag := mkTinyTag (Some "Two") (Some "Band") None.

Definition tags_of (f : list string) : option TinyTag :=
  if decide (f = one) then Some one_tags
  else if decide (f = two) then Some two_tags
  else None.

(** A search that finds lyrics for [One Band] only. *)
Definition finds_one (n : nat) (keywords : string) (save_path : list string) : reply :=
  if String.eqb keywords "One Band" then mkReply (Some "[00:01.00] la") true
  else mkReply None false.

Definition providers : list string := ["Deezer"; "Lrclib"; "NeatEase"; "Megalobiz"].

Definition fresh : World := mkWorld Missing ∅ 0.

Definition process (known blacklist : list string) (w : World) : Process :=
  mkProcess 0
    (mkDownloader "unsuccessful_fetches.txt" (list_to_set known) blacklist providers)
    w.

End Sample.

(** ** A small music library, for the examples *)

Module Demo.

Definition song : list string := ["music"; "song.mp3"].
Definition hymn : list string := ["music"; "hymn.mp3"].
Definition verse : list string := ["music"; "verse.mp3"].
Definition solo : list string := ["music"; "solo.mp3"].
Definition notes : list string := ["music"; "notes.txt"].

(** The directory [music] with one song and one text file. *)
Definition library : tree := Dir [("song.mp3", File); ("notes.txt", File)].

(** The same directory once [song.lrc] has been written. *)
Definition library_with_lyrics : tree :=
  Dir [("song.mp3", File); ("song.lrc", File); ("notes.txt", File)].

(** The directory [music] with two songs. *)
Definition two_songs : tree := Dir [("song.mp3", File); ("hymn.mp3", File)].

(** The same directory as a later crawl finds it: with the lyrics file of
    the song and with the ledger file. *)
Definition two_songs_later : tree :=
  Dir [("song.mp3", File); ("song.lrc", File); ("hymn.mp3", File);
       ("unsuccessful_fetches.txt", File)].

(** The directory [music] with the song whose title has two lines. *)
Definition one_verse : tree := Dir [("verse.mp3", File)].

Definition song_tags : TinyTag := mkTinyTag (Some "Foo") (Some "Bar") (Some "Pop").
Definition hymn_tags : TinyTag :=
  mkTinyTag (Some "Hymn") (Some "Choir") (Some "Christian Rock").
(** A title of two lines. *)
Definition verse_tags : TinyTag :=
  mkTinyTag (Some ("One" +:+ Str.nl +:+ "Two")) (Some "Bar") None.
(** A track without artist. *)
Definition solo_tags : TinyTag := mkTinyTag (Some "Foo") None None.

Definition tags_of (f : list string) : option TinyTag :=
  if decide (f = song) then Some song_tags
  else if decide (f = hymn) then Some hymn_tags
  else if decide (f = verse) then Some verse_tags
  else if decide (f = solo) then Some solo_tags
  else None.

(** A search that finds lyrics for every key, and one that finds none. *)
Definition finds_all (n : nat) (keywords : string) (save_path : list string) : reply :=
  mkReply (Some "[00:01.00] la") true.

Definition finds_none (n : nat) (keywords : string) (save_path : list string) : reply :=
  mkReply None false.

(** A search that finds lyrics for the key [Foo Bar] only. *)
Definition finds_foo (n : nat) (keywords : string) (save_path : list string) : reply :=
  if String.eqb keywords "Foo Bar" then mkReply (Some "[00:01.00] la") true
  else mkReply None false.

Definition providers : list string := ["Deezer"; "Lrclib"; "NeatEase"; "Megalobiz"].

(** No ledger file, no lyrics file, no search made yet. *)
Definition fresh : World := mkWorld Missing ∅ 0.

(** A process whose ledger in memory holds [known], in the world [w]. *)
Definition process (known blacklist : list string) (w : World) : Process :=
  mkProcess 0
    (mkDownloader "unsuccessful_fetches.txt" (list_to_set known) blacklist providers)
    w.

(** The success count of a finished crawl. *)
Definition successes (r : res Process) : option nat :=
  match r with
  | Ok p => Some (success_count p)
  | Raise _ => None
  end.

End Demo.

Section Program.

#[local] Set Default Proof Using "Type".

(** [TinyTag.get(filename)]; [None] stands for [TinyTagException]. *)
Variable TinyTag_get : list string -> option TinyTag.

(** [syncedlyrics.search], as the call with a given number answers. *)
Variable search : nat -> string -> list string -> reply.

(** [str.lower] *)
Variable str_lower : string -> string.

(** [Path.resolve] *)
Variable resolve : list string -> list string.

(** [tauto] on the propositions at hand, the parameters of the section put
    aside. *)
Ltac logic := try clear str_lower; try clear resolve; tauto.

(** [x.lower()] for an attribute that may be [None]. *)
Definition attr_lower (o : option string) : res string :=
  match o with
  | Some s => Ok (str_lower s)
  | None => Raise AttributeError
  end.

(** Whether some entry of the blacklist, in lower case, occurs in the genre
    of the track, in lower case. *)
Definition blacklist_hit (tags : TinyTag) (genres : list string) : bool :=
  match genre tags with
  | None => false
  | Some g => existsb (fun e => Str.contains (str_lower e) (str_lower g)) genres
  end.

Definition tinytag_get (filename : list string) : M TinyTag :=
  match TinyTag_get filename with
  | Some tags => ret tags
  | None => raise TinyTagException
  end.

(** [syncedlyrics.search(keywords, allow_plain_format=False,
    save_path=..., enhanced=False, providers=...)] *)
Definition syncedlyrics_search
    (keywords : string) (save_path : list string) (providers : list string)
    : M (option string) :=
  w <- get_world ;;
  let r := search (calls w) keywords save_path in
  emit (SearchCall keywords save_path providers) ;;
  put_world (mkWorld (ledger_file w)
               (if wrote_file r then {[save_path]} ∪ existing w else existing w)
               (S (calls w))) ;;
  ret (lrc r).

(** [lyrics.exists()]: links are followed. *)
Definition path_exists (p : list string) : M bool :=
  w <- get_world ;;
  ret (bool_decide (resolve p ∈ existing w)).

(** ** class Downloader: methods *)

Definition write_unsuccessful_fetches_to_disk (track : string) : M unit :=
  w <- get_world ;;
  f <- lift (open_append (track +:+ Str.nl) (ledger_file w)) ;;
  put_world (mkWorld f (existing w) (calls w)).

Definition check_for_existing (keywords : string) : M bool :=
  self <- get_self ;;
  if bool_decide (keywords ∈ unsuccessful_fetches self)
  then log INFO (msg_tried_before keywords) ;; ret true
  else ret false.

(** The [for] loop of [check_for_blacklisted_genre]. *)
Fixpoint check_genres (tags : TinyTag) (genres : list string) : M bool :=
  match genres with
  | [] => ret false
  | g :: rest =>
      hit <- try_except
               (have <- lift (attr_lower (genre tags)) ;;
                if Str.contains (str_lower g) have
                then log INFO (msg_genre_skipped (title tags) (genre tags)) ;;
                     ret true
                else ret false)
               AttributeError
               (ret false) ;;
      if hit then ret true else check_genres tags rest
  end.

Definition check_for_blacklisted_genre (tags : TinyTag) : M bool :=
  self <- get_self ;;
  check_genres tags (blacklisted_genres self).

Definition run_tagged (filename : list string) (tags : TinyTag) : M bool :=
  let title := title tags in
  let keywords := fetch_key tags in
  known <- check_for_existing keywords ;;
  if known then ret false
  else
    listed <- check_for_blacklisted_genre tags ;;
    if listed then ret false
    else
      lyrics <- lift (with_suffix filename ".lrc") ;;
      there <- path_exists lyrics ;;
      if there
      then log INFO (msg_has_lyrics title) ;; ret false
      else
        log INFO (msg_fetching title (genre tags)) ;;
        self <- get_self ;;
        found <- syncedlyrics_search keywords (resolve lyrics)
                   (lyrics_providers self) ;;
        if negb (truthy found)
        then log ERROR (msg_not_found title) ;;
             write_unsuccessful_fetches_to_disk (fetch_key tags) ;;
             ret false
        else ret true.

(** [Downloader.run] *)
Definition run (filename : list string) : M bool :=
  got <- try_except
           (tags <- tinytag_get filename ;; ret (Some tags))
           TinyTagException
           (log DEBUG (msg_not_a_song filename) ;; ret None) ;;
  match got with
  | None => ret false
  | Some tags => run_tagged filename tags
  end.

(** The operation [evaluate] of the specification: [run], with its return
    value and log read as an outcome. *)
Definition evaluate (filename : list string) : M (option outcome) :=
  fun p =>
    match run filename p with
    | (Ok b, p', evs) => (Ok (outcome_of b evs), p', evs)
    | (Raise e, p', evs) => (Raise e, p', evs)
    end.

(** ** class Crawler *)

Definition count_success : M unit :=
  fun p => (Ok tt, mkProcess (S (success_count p)) (downloader p) (world p), []).

Definition download_lyrics (path : list string) : M unit :=
  ok <- run path ;;
  if ok then count_success else ret tt.

Fixpoint recursive_download (node : tree) (path : list string) : M unit :=
  match node with
  | Dir entries =>
      (fix each (es : list (string * tree)) : M unit :=
         match es with
         | [] => ret tt
         | (nm, item) :: es' =>
             match item with
             | Dir _ => recursive_download item (joinpath path nm)
             | File => download_lyrics (joinpath path nm)
             end ;;
             each es'
         end) entries
  | File => download_lyrics path
  end.

(** [Crawler.__init__], started in the world [w] on the tree [node] found
    at [path]: the finished crawler or the exception that ended it, the
    world left behind and the events. *)
Definition Crawler_init
    (path : list string) (node : tree) (blacklist : list string) (w : World)
    : res Process * World * list event :=
  match Downloader_init blacklist w with
  | Raise e => (Raise e, w, [])
  | Ok d =>
      match recursive_download node path (mkProcess 0 d w) with
      | (Ok _, p, evs) => (Ok p, world p, evs)
      | (Raise e, p, evs) => (Raise e, world p, evs)
      end
  end.


(** [download_lyrics] on each path of a list, in order. *)
Fixpoint download_all (paths : list (list string)) : M unit :=
  match paths with
  | [] => ret tt
  | f :: rest => download_lyrics f ;; download_all rest
  end.

(** A file that no later run fetches again: it has no tags, or its key is in
    the set [known], or its genre is on the blacklist, or its lyrics path
    exists in [w], or the search for it finds nothing and its key is a line
    of the ledger file of [w]. *)
Definition settled (known : gset string) (blacklist : list string) (w : World)
    (f : list string) : Prop :=
  match TinyTag_get f with
  | None => True
  | Some tags =>
      fetch_key tags ∈ known \/
      blacklist_hit tags blacklist = true \/
      exists l, with_suffix f ".lrc" = Ok l /\
        (resolve l ∈ existing w \/
         (truthy (lrc (search 0 (fetch_key tags) (resolve l))) = false /\
          recorded (fetch_key tags) (ledger_file w)))
  end.

(** A track that a run skips at one of its three gates: its key is in the
    ledger in memory, or its genre is on the blacklist, or its lyrics file
    exists. *)
Definition gated (f : list string) (tags : TinyTag) (d : Downloader) (w : World)
    : Prop :=
  fetch_key tags ∈ unsuccessful_fetches d \/
  blacklist_hit tags (blacklisted_genres d) = true \/
  exists l, with_suffix f ".lrc" = Ok l /\ resolve l ∈ existing w.

(** The search answers the same whenever it is asked. *)
Definition deterministic : Prop :=
  forall n m keywords save_path,
    search n keywords save_path = search m keywords save_path.

(** The search writes the lyrics file whenever it returns lyrics. *)
Definition writes_on_success : Prop :=
  forall n keywords save_path,
    truthy (lrc (search n keywords save_path)) = true ->
    wrote_file (search n keywords save_path) = true.

(** * Properties *)

(** ** Strings, lines and the text-mode read *)

#[local] Arguments String.append !s1 s2 : simpl nomatch.

Lemma str_app_assoc (a b c : string) : (a +:+ b) +:+ c = a +:+ b +:+ c.
Proof.
  induction a as [|x a IH]; simpl; [reflexivity|].
  now rewrite IH.
Qed.

Lemma str_app_nil_r (a : string) : a +:+ "" = a.
Proof.
  induction a as [|x a IH]; simpl; [reflexivity|].
  now rewrite IH.
Qed.

Lemma str_app_length (a b : string) :
  String.length (a +:+ b) = String.length a + String.length b.
Proof.
  induction a as [|x a IH]; simpl; [reflexivity|].
  now rewrite IH.
Qed.

Lemma split_nl_nonempty (s : string) : Str.split_nl s <> [].
Proof.
  destruct s as [|c s]; simpl; [discriminate|].
  destruct (Ascii.eqb c Str.LF); [discriminate|].
  destruct (Str.split_nl s); discriminate.
Qed.

(** Splitting distributes over a line feed. *)
Lemma split_nl_app_nl (a b : string) :
  Str.split_nl (a +:+ Str.nl +:+ b) = Str.split_nl a ++ Str.split_nl b.
Proof.
  induction a as [|c a IH].
  - reflexivity.
  - cbn [String.append Str.split_nl].
    destruct (Ascii.eqb c Str.LF).
    + now rewrite IH.
    + rewrite IH.
      destruct (Str.split_nl a) as [|l ls] eqn:E; [|reflexivity].
      now apply split_nl_nonempty in E.
Qed.

Lemma split_nl_line (k : string) :
  Str.has_char Str.LF k = false -> Str.split_nl k = [k].
Proof.
  induction k as [|c k IH]; simpl; [reflexivity|].
  intros H. apply orb_false_iff in H as [Hc Hk].
  rewrite Hc, (IH Hk). reflexivity.
Qed.

Lemma split_nl_closed (t : string) :
  Str.split_nl (t +:+ Str.nl) = Str.split_nl t ++ [""].
Proof.
  change (t +:+ Str.nl) with (t +:+ Str.nl +:+ "").
  apply split_nl_app_nl.
Qed.

Lemma count_nl_app (a b : string) :
  Str.count_nl (a +:+ b) = Str.count_nl a + Str.count_nl b.
Proof.
  induction a as [|c a IH]; simpl; [reflexivity|].
  rewrite IH. lia.
Qed.

Lemma count_nl_line (k : string) :
  Str.has_char Str.LF k = false -> Str.count_nl k = 0.
Proof.
  induction k as [|c k IH]; simpl; [reflexivity|].
  intros H. apply orb_false_iff in H as [Hc Hk].
  rewrite Hc, (IH Hk). reflexivity.
Qed.

Lemma ends_with_nl_app (a b : string) :
  Str.ends_with_nl b = true -> Str.ends_with_nl (a +:+ b) = true.
Proof.
  intros Hb. induction a as [|c a IH]; [exact Hb|].
  cbn [String.append Str.ends_with_nl].
  destruct (a +:+ b) eqn:E; [|exact IH].
  destruct a; simpl in E; [|discriminate].
  subst b. discriminate.
Qed.

Lemma ends_with_nl_inv (s : string) :
  Str.ends_with_nl s = true -> exists t, s = t +:+ Str.nl.
Proof.
  induction s as [|c s IH]; [discriminate|].
  destruct s as [|c' s'].
  - simpl. intros H. apply Ascii.eqb_eq in H. subst c.
    now exists "".
  - intros H. destruct (IH H) as [t Ht].
    exists (String c t). simpl. now rewrite <- Ht.
Qed.

(** Text that ends in a line feed is read as text that ends in a line
    feed, unless it is the second half of a pending pair and nothing else. *)
Lemma translate_ends_nl (s : string) (b : bool) :
  Str.ends_with_nl s = true ->
  (b = true -> s <> Str.nl) ->
  exists t, Str.translate_newlines b s = t +:+ Str.nl.
Proof.
  revert b. induction s as [|c s IH]; [discriminate|].
  intros b H Hb. destruct s as [|c' s'].
  - simpl in H. apply Ascii.eqb_eq in H. subst c.
    destruct b; [now contradiction Hb|].
    now exists "".
  - assert (Hs : Str.ends_with_nl (String c' s') = true) by exact H.
    remember (String c' s') as s0 eqn:Es0.
    cbn [Str.translate_newlines].
    destruct (Ascii.eqb c Str.CR).
    + destruct (string_dec s0 Str.nl) as [E|E].
      * rewrite E. now exists "".
      * destruct (IH true Hs (fun _ => E)) as [t Ht].
        exists (String Str.LF t). rewrite Ht. reflexivity.
    + destruct (Ascii.eqb c Str.LF && b).
      * apply (IH false Hs). discriminate.
      * destruct (IH false Hs) as [t Ht]; [discriminate|].
        exists (String c t). rewrite Ht. reflexivity.
Qed.

(** After a finished line the decoder has nothing pending. *)
Lemma translate_app_after_nl (s r : string) (b : bool) :
  Str.ends_with_nl s = true ->
  Str.translate_newlines b (s +:+ r) =
  Str.translate_newlines b s +:+ Str.translate_newlines false r.
Proof.
  revert b. induction s as [|c s IH]; [discriminate|].
  intros b H. destruct s as [|c' s'].
  - simpl in H. apply Ascii.eqb_eq in H. subst c.
    destruct b; reflexivity.
  - assert (Hs : Str.ends_with_nl (String c' s') = true) by exact H.
    remember (String c' s') as s0 eqn:Es0.
    change (String c s0 +:+ r) with (String c (s0 +:+ r)).
    cbn [Str.translate_newlines].
    destruct (Ascii.eqb c Str.CR); [now rewrite (IH true Hs)|].
    destruct (Ascii.eqb c Str.LF && b); now rewrite (IH false Hs).
Qed.

(** A key without line feed and carriage return is read back as written. *)
Lemma translate_plain_line (k : string) :
  Str.has_char Str.CR k = false ->
  Str.has_char Str.LF k = false ->
  Str.translate_newlines false (k +:+ Str.nl) = k +:+ Str.nl.
Proof.
  induction k as [|c k IH]; [reflexivity|].
  simpl. intros Hcr Hlf.
  apply orb_false_iff in Hcr as [Hc1 Hk1].
  apply orb_false_iff in Hlf as [Hc2 Hk2].
  rewrite Hc1, Hc2. simpl. now rewrite IH.
Qed.

Lemma lines_read_closed (s : string) :
  Str.ends_with_nl s = true -> "" ∈ lines_read s.
Proof.
  intros H. unfold lines_read, Str.universal_newlines.
  destruct (translate_ends_nl s false H) as [t Ht]; [discriminate|].
  rewrite Ht, split_nl_closed. apply elem_of_app. right.
  now apply list_elem_of_singleton.
Qed.

(** Appending finished lines to a well-formed file keeps every line that a
    read found before. *)
Lemma lines_read_append (s data x : string) :
  s = "" \/ Str.ends_with_nl s = true ->
  Str.ends_with_nl data = true ->
  x ∈ lines_read s -> x ∈ lines_read (s +:+ data).
Proof.
  intros [->|Hs] Hd Hx.
  - simpl. unfold lines_read in Hx. simpl in Hx.
    apply list_elem_of_singleton in Hx. subst x.
    now apply lines_read_closed.
  - unfold lines_read, Str.universal_newlines in *.
    rewrite (translate_app_after_nl s data false Hs).
    destruct (translate_ends_nl s false Hs) as [t Ht]; [discriminate|].
    destruct (translate_ends_nl data false Hd) as [u Hu]; [discriminate|].
    rewrite Ht in *. rewrite Hu, str_app_assoc.
    rewrite split_nl_closed in Hx. rewrite split_nl_app_nl, split_nl_closed.
    apply elem_of_app in Hx as [Hx|Hx]; rewrite !elem_of_app;
      [now left | now right; right].
Qed.

(** A plain key appended to a well-formed file is found by the next read. *)
Lemma lines_read_key (s k : string) :
  s = "" \/ Str.ends_with_nl s = true ->
  Str.has_char Str.CR k = false ->
  Str.has_char Str.LF k = false ->
  k ∈ lines_read (s +:+ k +:+ Str.nl).
Proof.
  intros Hs Hcr Hlf.
  assert (Hk : k ∈ lines_read (k +:+ Str.nl)).
  { unfold lines_read, Str.universal_newlines.
    rewrite (translate_plain_line k Hcr Hlf), split_nl_closed.
    rewrite (split_nl_line k Hlf). apply elem_of_cons. now left. }
  destruct Hs as [->|Hs]; [exact Hk|].
  unfold lines_read, Str.universal_newlines in *.
  rewrite (translate_app_after_nl s _ false Hs).
  destruct (translate_ends_nl s false Hs) as [t Ht]; [discriminate|].
  rewrite Ht, str_app_assoc, split_nl_app_nl.
  apply elem_of_app. now right.
Qed.

(** ** Paths *)

Lemma rfind_dot_app (a b : string) :
  Str.rfind_dot (a +:+ b) =
  match Str.rfind_dot b with
  | Some i => Some (String.length a + i)
  | None => Str.rfind_dot a
  end.
Proof.
  induction a as [|c a IH]; simpl.
  - now destruct (Str.rfind_dot b).
  - rewrite IH. now destruct (Str.rfind_dot b).
Qed.

Lemma drop_app_length (a b : string) : Str.drop (String.length a) (a +:+ b) = b.
Proof. induction a as [|c a IH]; simpl; [now destruct b | exact IH]. Qed.

Lemma take_app_length (a b : string) : Str.take (String.length a) (a +:+ b) = a.
Proof. induction a as [|c a IH]; simpl; [now destruct b | now rewrite IH]. Qed.

Lemma drop_length (i : nat) (s : string) :
  String.length (Str.drop i s) = String.length s - i.
Proof.
  revert s. induction i as [|i IH]; intros s; simpl; [lia|].
  destruct s as [|c s]; simpl; [reflexivity | apply IH].
Qed.

Lemma rfind_dot_lt (s : string) (i : nat) :
  Str.rfind_dot s = Some i -> i < String.length s.
Proof.
  revert i. induction s as [|c s IH]; simpl; [discriminate|].
  intros i. destruct (Str.rfind_dot s) as [j|].
  - intros [= <-]. specialize (IH j eq_refl). lia.
  - destruct (Ascii.eqb c "."); [|discriminate]. intros [= <-]. lia.
Qed.


Lemma stem_of_nonempty (nm : string) : nm <> "" -> stem_of nm <> "".
Proof.
  intros Hnm. unfold stem_of.
  destruct (String.eqb_spec (suffix_of nm) "") as [E|E]; [exact Hnm|].
  unfold suffix_of in *.
  destruct (Str.rfind_dot nm) as [i|] eqn:Hi; [|now contradiction E].
  destruct (Nat.ltb 0 i && Nat.ltb i (String.length nm - 1)) eqn:Hc;
    [|now contradiction E].
  apply andb_true_iff in Hc as [H0 H1].
  apply Nat.ltb_lt in H0. apply Nat.ltb_lt in H1.
  rewrite drop_length.
  destruct nm as [|c nm]; [now contradiction Hnm|].
  replace (String.length (String c nm) - (String.length (String c nm) - i))
    with (S (pred i)) by (simpl in *; lia).
  discriminate.
Qed.

Lemma suffix_of_stem_lrc (st : string) :
  st <> "" -> suffix_of (st +:+ ".lrc") = ".lrc".
Proof.
  intros Hst. unfold suffix_of.
  rewrite rfind_dot_app. cbn [Str.rfind_dot Ascii.eqb Bool.eqb].
  rewrite Nat.add_0_r, str_app_length.
  assert (0 < String.length st) by (destruct st; [now contradiction Hst | simpl; lia]).
  replace (Nat.ltb 0 (String.length st)) with true
    by (symmetry; now apply Nat.ltb_lt).
  replace (Nat.ltb (String.length st) (String.length st + String.length ".lrc" - 1))
    with true by (symmetry; apply Nat.ltb_lt; simpl; lia).
  apply drop_app_length.
Qed.

Lemma with_suffix_lrc_spec (f : list string) :
  with_suffix f ".lrc" =
  if String.eqb (name f) "" then Raise ValueError
  else Ok (removelast f ++ [stem_of (name f) +:+ ".lrc"]).
Proof.
  unfold with_suffix, stem_of, suffix.
  cbn [Str.has_char Str.startswith String.eqb Ascii.eqb Bool.eqb
         andb orb negb].
  destruct (String.eqb (name f) ""); [reflexivity|].
  now destruct (String.eqb (suffix_of (name f)) "").
Qed.

Lemma name_snoc (l : list string) (x : string) : name (l ++ [x]) = x.
Proof. unfold name. apply last_last. Qed.

(** A lyrics path is its own lyrics path. *)
Lemma with_suffix_lrc_fixed (f l : list string) :
  with_suffix f ".lrc" = Ok l -> with_suffix l ".lrc" = Ok l.
Proof.
  rewrite !with_suffix_lrc_spec.
  destruct (String.eqb_spec (name f) "") as [E|E]; [discriminate|].
  intros [= <-].
  pose proof (stem_of_nonempty _ E) as Hst.
  remember (stem_of (name f)) as st eqn:Est. clear Est E.
  rewrite name_snoc, removelast_last.
  destruct (String.eqb_spec (st +:+ ".lrc") "") as [E'|E'].
  { destruct st; [now contradiction Hst | discriminate]. }
  do 3 f_equal.
  unfold stem_of. rewrite (suffix_of_stem_lrc _ Hst).
  cbn [String.eqb Ascii.eqb Bool.eqb andb].
  rewrite str_app_length.
  replace (String.length st + String.length ".lrc" - String.length ".lrc")
    with (String.length st) by lia.
  now rewrite take_app_length.
Qed.

(** ** The program, step by step *)


Lemma check_genres_spec (tags : TinyTag) (genres : list string) (p : Process) :
  check_genres tags genres p =
  (Ok (blacklist_hit tags genres), p,
   if blacklist_hit tags genres
   then [Log INFO (msg_genre_skipped (title tags) (genre tags))] else []).
Proof.
  unfold blacklist_hit.
  induction genres as [|g rest IH]; simpl.
  - now destruct (genre tags).
  - unfold bind, try_except, lift in *. destruct (genre tags) as [have|]; simpl.
    + destruct (Str.contains (str_lower g) (str_lower have)); simpl; [reflexivity|].
      rewrite IH. reflexivity.
    + rewrite IH. reflexivity.
Qed.

Lemma check_for_blacklisted_genre_spec (tags : TinyTag) (p : Process) :
  check_for_blacklisted_genre tags p =
  (Ok (blacklist_hit tags (blacklisted_genres (downloader p))), p,
   if blacklist_hit tags (blacklisted_genres (downloader p))
   then [Log INFO (msg_genre_skipped (title tags) (genre tags))] else []).
Proof.
  unfold check_for_blacklisted_genre, bind, get_self.
  rewrite check_genres_spec. reflexivity.
Qed.

Lemma check_for_existing_spec (keywords : string) (p : Process) :
  check_for_existing keywords p =
  if bool_decide (keywords ∈ unsuccessful_fetches (downloader p))
  then (Ok true, p, [Log INFO (msg_tried_before keywords)])
  else (Ok false, p, []).
Proof.
  unfold check_for_existing, bind, get_self.
  now destruct (bool_decide _).
Qed.

(** [run] on a file with tags, written out branch by branch. *)
Lemma run_tagged_spec (filename : list string) (tags : TinyTag) (p : Process) :
  run_tagged filename tags p =
  if bool_decide (fetch_key tags ∈ unsuccessful_fetches (downloader p))
  then (Ok false, p, [Log INFO (msg_tried_before (fetch_key tags))])
  else if blacklist_hit tags (blacklisted_genres (downloader p))
  then (Ok false, p, [Log INFO (msg_genre_skipped (title tags) (genre tags))])
  else
    match with_suffix filename ".lrc" with
    | Raise e => (Raise e, p, [])
    | Ok lyrics =>
        if bool_decide (resolve lyrics ∈ existing (world p))
        then (Ok false, p, [Log INFO (msg_has_lyrics (title tags))])
        else
          let r := search (calls (world p)) (fetch_key tags) (resolve lyrics) in
          let w1 := after_search r (resolve lyrics) (world p) in
          let asked :=
            [Log INFO (msg_fetching (title tags) (genre tags));
             SearchCall (fetch_key tags) (resolve lyrics)
               (lyrics_providers (downloader p))] in
          if truthy (lrc r) then (Ok true, with_world p w1, asked)
          else
            match open_append (fetch_key tags +:+ Str.nl) (ledger_file (world p)) with
            | Ok f' =>
                (Ok false, with_world p (mkWorld f' (existing w1) (calls w1)),
                 asked ++ [Log ERROR (msg_not_found (title tags))])
            | Raise e =>
                (Raise e, with_world p w1,
                 asked ++ [Log ERROR (msg_not_found (title tags))])
            end
    end.
Proof.
  unfold run_tagged, bind.
  rewrite check_for_existing_spec.
  destruct (bool_decide (fetch_key tags ∈ _)); [reflexivity|].
  rewrite check_for_blacklisted_genre_spec.
  destruct (blacklist_hit tags _); [reflexivity|].
  unfold lift. destruct (with_suffix filename ".lrc") as [lyrics|e]; [|reflexivity].
  unfold path_exists, bind, get_world, ret. cbv beta iota zeta.
  destruct (bool_decide (resolve lyrics ∈ _)); [reflexivity|].
  unfold syncedlyrics_search, write_unsuccessful_fetches_to_disk, log, emit,
    bind, get_world, get_self, put_world, ret, lift, with_world, after_search.
  cbn [world downloader success_count ledger_file existing calls app].
  destruct (truthy (lrc _)); cbn [negb]; [reflexivity|].
  destruct (open_append _ _); reflexivity.
Qed.

Lemma run_spec (filename : list string) (p : Process) :
  run filename p =
  match TinyTag_get filename with
  | None => (Ok false, p, [Log DEBUG (msg_not_a_song filename)])
  | Some tags => run_tagged filename tags p
  end.
Proof.
  unfold run, bind, try_except, tinytag_get.
  destruct (TinyTag_get filename) as [tags|]; cbn.
  - destruct (run_tagged filename tags p) as [[r p'] evs].
    now destruct r.
  - reflexivity.
Qed.

(** ** How a run changes the process *)

Lemma ledger_extends_refl (f : file_state) : ledger_extends f f.
Proof. now left. Qed.

Lemma ledger_extends_trans (f g h : file_state) :
  ledger_extends f g -> ledger_extends g h -> ledger_extends f h.
Proof.
  intros [->|[Hf [d1 [Hd1 ->]]]] Hgh; [exact Hgh|].
  destruct Hgh as [->|[_ [d2 [Hd2 ->]]]].
  - right. split; [exact Hf|]. now exists d1.
  - right. split; [exact Hf|]. exists (d1 +:+ d2). split.
    + now apply ends_with_nl_app.
    + cbn [file_text]. now rewrite str_app_assoc.
Qed.

Lemma grows_refl (w : World) : grows w w.
Proof. split; [reflexivity | apply ledger_extends_refl]. Qed.

Lemma grows_trans (u v w : World) : grows u v -> grows v w -> grows u w.
Proof.
  intros (Suv & Luv) (Svw & Lvw). split.
  - now transitivity (existing v).
  - now apply ledger_extends_trans with (ledger_file v).
Qed.

Lemma open_append_extends (data : string) (f f' : file_state) :
  Str.ends_with_nl data = true ->
  open_append data f = Ok f' ->
  f <> NoAccess /\ f' = Text (file_text f +:+ data).
Proof.
  intros Hd. destruct f as [| |s]; simpl; [|discriminate|]; intros [= <-]; easy.
Qed.

Lemma key_line_closed (k : string) : Str.ends_with_nl (k +:+ Str.nl) = true.
Proof. now apply ends_with_nl_app. Qed.

Lemma after_search_grows (save_path : list string) (r : reply) (w : World) :
  grows w (after_search r save_path w).
Proof.
  unfold after_search. split; cbn [existing ledger_file].
  - destruct (wrote_file r); [apply union_subseteq_r | reflexivity].
  - apply ledger_extends_refl.
Qed.

(** The cases of [run], for proofs that follow its branches. *)
Ltac split_run :=
  cbv zeta;
  repeat match goal with
    | |- context [match TinyTag_get ?f with _ => _ end] =>
        let tags := fresh "tags" in
        destruct (TinyTag_get f) as [tags|] eqn:?Htags
    | |- context [if bool_decide ?P then _ else _] =>
        destruct (bool_decide_reflect P)
    | |- context [if blacklist_hit ?t ?g then _ else _] =>
        destruct (blacklist_hit t g) eqn:?Hhit
    | |- context [match with_suffix ?f ?s with _ => _ end] =>
        let lyrics := fresh "lyrics" in
        destruct (with_suffix f s) as [lyrics|?e] eqn:?Hlyrics
    | |- context [if truthy ?x then _ else _] =>
        destruct (truthy x) eqn:?Hfound
    | |- context [match open_append ?d ?f with _ => _ end] =>
        destruct (open_append d f) as [?f'|?e] eqn:?Happend
    end.

(** Whatever [run] does, the [Downloader] object and the success count are
    as before, and the world has grown. *)
Lemma run_step (f : list string) (p p' : Process) (r : res bool) (evs : list event) :
  run f p = (r, p', evs) ->
  downloader p' = downloader p /\
  success_count p' = success_count p /\
  grows (world p) (world p').
Proof.
  rewrite run_spec. destruct (TinyTag_get f) as [tags|];
    [rewrite run_tagged_spec|]; split_run; intros [= <- <- <-];
    (split; [reflexivity | split; [reflexivity|]]); try apply grows_refl;
    cbn [with_world world].
  - apply after_search_grows.
  - apply grows_trans with (after_search
      (search (calls (world p)) (fetch_key tags) (resolve lyrics))
      (resolve lyrics) (world p));
      [apply after_search_grows|].
    destruct (open_append_extends _ _ _ (key_line_closed _) Happend) as [Hn Hf'].
    split; cbn [existing ledger_file after_search]; [reflexivity|].
    right. split; [exact Hn|]. eexists. split; [apply key_line_closed | exact Hf'].
  - apply after_search_grows.
Qed.

Lemma download_lyrics_step (f : list string) (p p' : Process) (r : res unit)
    (evs : list event) :
  download_lyrics f p = (r, p', evs) ->
  downloader p' = downloader p /\
  success_count p <= success_count p' /\
  grows (world p) (world p').
Proof.
  unfold download_lyrics, bind.
  destruct (run f p) as [[rb q] e1] eqn:Hrun.
  apply run_step in Hrun as (Hd & Hc & Hg).
  destruct rb as [[|]|e]; cbn; intros [= <- <- <-]; cbn;
    (split; [exact Hd | split; [lia | exact Hg]]).
Qed.

Lemma download_all_step (fs : list (list string)) (p p' : Process) (r : res unit)
    (evs : list event) :
  download_all fs p = (r, p', evs) ->
  downloader p' = downloader p /\
  success_count p <= success_count p' /\
  grows (world p) (world p').
Proof.
  revert p p' r evs. induction fs as [|f rest IH]; intros p p' r evs.
  - cbn. intros [= <- <- <-].
    split; [reflexivity | split; [lia | apply grows_refl]].
  - cbn [download_all]. unfold bind.
    destruct (download_lyrics f p) as [[r1 q] e1] eqn:H1.
    apply download_lyrics_step in H1 as (Hd & Hc & Hg).
    destruct r1 as [[]|e].
    + destruct (download_all rest q) as [[r2 q2] e2] eqn:H2.
      apply IH in H2 as (Hd2 & Hc2 & Hg2).
      intros [= <- <- <-].
      split; [congruence | split; [lia | now apply grows_trans with (world q)]].
    + intros [= <- <- <-]. now split; [|split].
Qed.

(** ** The crawl as a list of downloads *)

Lemma bind_ret_tt (m : M unit) (p : Process) : (m ;; ret tt) p = m p.
Proof.
  unfold bind, ret. destruct (m p) as [[[[]|e] q] evs]; [|reflexivity].
  now rewrite app_nil_r.
Qed.

Lemma download_all_app (a b : list (list string)) (p : Process) :
  download_all (a ++ b) p = (download_all a ;; download_all b) p.
Proof.
  revert p. induction a as [|f a IH]; intros p.
  - cbn. unfold bind, ret. cbn. now destruct (download_all b p) as [[r q] evs].
  - cbn [download_all app]. unfold bind.
    destruct (download_lyrics f p) as [[[[]|e] q] e1]; [|reflexivity].
    rewrite IH. unfold bind.
    destruct (download_all a q) as [[[[]|e] q2] e2]; [|reflexivity].
    destruct (download_all b q2) as [[r3 q3] e3].
    now rewrite app_assoc.
Qed.

Lemma recursive_download_files (node : tree) :
  forall (path : list string) (p : Process),
    recursive_download node path p = download_all (files_of node path) p.
Proof.
  revert node. fix IH 1. intros [|entries] path p.
  - cbn. now rewrite bind_ret_tt.
  - cbn [recursive_download files_of]. revert p.
    induction entries as [|[nm item] es IHes]; intros p; [reflexivity|].
    rewrite download_all_app. unfold bind at 1 3.
    assert (Hitem :
      match item with
      | File => download_lyrics (joinpath path nm)
      | Dir _ => recursive_download item (joinpath path nm)
      end p = download_all (files_of item (joinpath path nm)) p).
    { pose proof (IH item (joinpath path nm) p) as Hsub.
      destruct item as [|sub]; [|exact Hsub].
      cbn. now rewrite bind_ret_tt. }
    rewrite Hitem.
    destruct (download_all (files_of item (joinpath path nm)) p)
      as [[[[]|e] q] e1]; [|reflexivity].
    now rewrite IHes.
Qed.

(** ** The outcome of one file *)

Lemma evaluate_spec (filename : list string) (p : Process) :
  evaluate filename p =
  match run filename p with
  | (Ok b, p', evs) => (Ok (outcome_of b evs), p', evs)
  | (Raise e, p', evs) => (Raise e, p', evs)
  end.
Proof. reflexivity. Qed.

(** Every call of [run] that returns stands for one outcome. *)
Lemma evaluate_classifies (filename : list string) (p p' : Process)
    (o : option outcome) (evs : list event) :
  evaluate filename p = (Ok o, p', evs) -> exists oc, o = Some oc.
Proof.
  rewrite evaluate_spec, run_spec.
  destruct (TinyTag_get filename) as [tags|]; [rewrite run_tagged_spec|];
    split_run; cbn; intros [= <- _ _]; now eexists.
Qed.

(** C2, as the code has it. For a track with title [t] the key that
    [evaluate] computes is [t], one space, and the artist, where an absent
    artist is printed as the word [None]; this key is what the ledger test
    and the search are given. *)
Theorem fetch_key_title_space_artist
    (filename : list string) (tags : TinyTag) (t : string) (p : Process) :
  TinyTag_get filename = Some tags ->
  title tags = Some t ->
  fetch_key tags =
    t +:+ " " +:+ match artist tags with Some a => a | None => "None" end
  /\ forall ev k,
       ev ∈ (evaluate filename p).2 ->
       (exists save_path providers, ev = SearchCall k save_path providers) \/
       (exists lvl, ev = Log lvl (msg_tried_before k)) ->
       k = fetch_key tags.
Proof.
  intros Htags Ht. split.
  - unfold fetch_key. rewrite Ht. now destruct (artist tags).
  - intros ev k. rewrite evaluate_spec, run_spec, Htags, run_tagged_spec.
    split_run; cbn [snd app]; intros Hev Hk;
      repeat (apply elem_of_cons in Hev as [->|Hev]);
      try (now apply elem_of_nil in Hev);
      destruct Hk as [(s & pr & E)|(lvl & E)]; congruence.
Qed.

(** C5. A track whose key is in the in-memory ledger is skipped as a known
    failure: the only event is the log record, so the search is not called,
    and the process, with the ledger in memory and on disk, is left as it
    was. Nothing is asked about the genre or the lyrics file: the gate comes
    first. *)
Theorem known_failure_gate
    (filename : list string) (tags : TinyTag) (p : Process) :
  TinyTag_get filename = Some tags ->
  fetch_key tags ∈ unsuccessful_fetches (downloader p) ->
  evaluate filename p =
    (Ok (Some (Skipped known_failure)), p,
     [Log INFO (msg_tried_before (fetch_key tags))]).
Proof.
  intros Htags Hin.
  rewrite evaluate_spec, run_spec, Htags, run_tagged_spec.
  now rewrite (bool_decide_eq_true_2 _ Hin).
Qed.

(** C8. A file that [TinyTag.get] rejects is skipped as not audio: [run]
    returns without raising, the only event is the debug record, the
    process is left as it was, and [download_lyrics] does not count it. *)
Theorem not_audio_is_skipped (filename : list string) (p : Process) :
  TinyTag_get filename = None ->
  evaluate filename p =
    (Ok (Some (Skipped not_audio)), p, [Log DEBUG (msg_not_a_song filename)])
  /\ download_lyrics filename p =
       (Ok tt, p, [Log DEBUG (msg_not_a_song filename)]).
Proof.
  intros Htags. split.
  - now rewrite evaluate_spec, run_spec, Htags.
  - unfold download_lyrics, bind. now rewrite run_spec, Htags.
Qed.

(** ** The blacklist *)

Lemma startswith_spec (pre s : string) :
  Str.startswith pre s = true <-> exists post, s = pre +:+ post.
Proof.
  revert s. induction pre as [|a pre IH]; intros s; simpl.
  - split; [now exists s | reflexivity].
  - destruct s as [|b s].
    + split; [discriminate | now intros [post E]].
    + rewrite andb_true_iff, Ascii.eqb_eq, IH. split.
      * intros [-> [post ->]]. now exists post.
      * intros [post [= -> ->]]. split; [reflexivity | now exists post].
Qed.

Lemma contains_spec (needle hay : string) :
  Str.contains needle hay = true <->
  exists pre post, hay = pre +:+ needle +:+ post.
Proof.
  split.
  - induction hay as [|c hay IH]; simpl; rewrite orb_true_iff.
    + intros [H|H]; [|discriminate].
      apply startswith_spec in H as [post E]. now exists "", post.
    + intros [H|H].
      * apply startswith_spec in H as [post E]. now exists "", post.
      * destruct (IH H) as (pre & post & ->). now exists (String c pre), post.
  - intros (pre & post & ->). induction pre as [|c pre IH].
    + assert (Str.startswith needle (needle +:+ post) = true) as H
        by (apply startswith_spec; now exists post).
      cbn [String.append]. destruct (needle +:+ post); simpl; now rewrite H.
    + cbn [String.append]. simpl. rewrite IH. apply orb_true_r.
Qed.

Lemma blacklist_hit_spec (tags : TinyTag) (genres : list string) :
  blacklist_hit tags genres = true <->
  exists g entry pre post,
    genre tags = Some g /\ entry ∈ genres /\
    str_lower g = pre +:+ str_lower entry +:+ post.
Proof.
  unfold blacklist_hit. destruct (genre tags) as [g|].
  - rewrite existsb_exists. split.
    + intros (entry & Hin & Hc). apply contains_spec in Hc as (pre & post & E).
      exists g, entry, pre, post. now rewrite <- list_elem_of_In in Hin.
    + intros (g' & entry & pre & post & [= <-] & Hin & E).
      exists entry. split; [now apply list_elem_of_In|].
      apply contains_spec. now exists pre, post.
  - split; [discriminate|]. now intros (g' & ? & ? & ? & ? & _).
Qed.

(** C6, as the code has it. Behind the ledger gate, a track with a genre is
    skipped as blacklisted exactly when some blacklist entry, in lower case,
    is a substring of the genre in lower case; a track without genre is
    matched by no entry, whatever the blacklist holds. *)
Theorem blacklisted_genre_gate
    (filename : list string) (tags : TinyTag) (p : Process) :
  TinyTag_get filename = Some tags ->
  (forall g,
     genre tags = Some g ->
     fetch_key tags ∉ unsuccessful_fetches (downloader p) ->
     ((evaluate filename p).1.1 = Ok (Some (Skipped blacklisted_genre)) <->
      exists entry pre post,
        entry ∈ blacklisted_genres (downloader p) /\
        str_lower g = pre +:+ str_lower entry +:+ post))
  /\ (genre tags = None ->
      check_for_blacklisted_genre tags p = (Ok false, p, []) /\
      (evaluate filename p).1.1 <> Ok (Some (Skipped blacklisted_genre))).
Proof.
  intros Htags.
  assert (Hgate :
    (evaluate filename p).1.1 = Ok (Some (Skipped blacklisted_genre)) ->
    blacklist_hit tags (blacklisted_genres (downloader p)) = true).
  { rewrite evaluate_spec, run_spec, Htags, run_tagged_spec.
    split_run; cbn; congruence. }
  split.
  - intros g Hg Hnew. split.
    + intros H. apply Hgate, blacklist_hit_spec in H
        as (g' & entry & pre & post & Hg' & Hin & E).
      exists entry, pre, post. split; [exact Hin | congruence].
    + intros (entry & pre & post & Hin & E).
      assert (blacklist_hit tags (blacklisted_genres (downloader p)) = true) as Hhit
        by (apply blacklist_hit_spec; now exists g, entry, pre, post).
      rewrite evaluate_spec, run_spec, Htags, run_tagged_spec.
      now rewrite (bool_decide_eq_false_2 _ Hnew), Hhit.
  - intros Hg.
    assert (blacklist_hit tags (blacklisted_genres (downloader p)) = false) as Hhit
      by (unfold blacklist_hit; now rewrite Hg).
    split.
    + rewrite check_for_blacklisted_genre_spec. now rewrite Hhit.
    + intros H. apply Hgate in H. congruence.
Qed.

(** C7, as the code has it. A track whose lyrics file exists is skipped
    without a search and with the process left as it was; the reason is
    already-has-lyrics when the two gates before it, the ledger and the
    blacklist, let the track through. *)
Theorem existing_lyrics_gate
    (filename : list string) (tags : TinyTag) (lyrics : list string) (p : Process) :
  TinyTag_get filename = Some tags ->
  with_suffix filename ".lrc" = Ok lyrics ->
  resolve lyrics ∈ existing (world p) ->
  exists r evs,
    evaluate filename p = (Ok (Some (Skipped r)), p, evs) /\
    forallb (fun ev => negb (is_search ev)) evs = true /\
    (fetch_key tags ∉ unsuccessful_fetches (downloader p) ->
     blacklist_hit tags (blacklisted_genres (downloader p)) = false ->
     r = already_has_lyrics /\ evs = [Log INFO (msg_has_lyrics (title tags))]).
Proof.
  intros Htags Hlyrics Hin.
  rewrite evaluate_spec, run_spec, Htags, run_tagged_spec, Hlyrics.
  rewrite (bool_decide_eq_true_2 _ Hin).
  destruct (bool_decide_reflect
              (fetch_key tags ∈ unsuccessful_fetches (downloader p))) as [Hk|Hk].
  { exists known_failure. eexists. split; [reflexivity|]. split; [reflexivity|].
    now intros Hnew. }
  destruct (blacklist_hit tags (blacklisted_genres (downloader p))) eqn:Hhit.
  { exists blacklisted_genre. eexists. split; [reflexivity|].
    split; [reflexivity|]. discriminate. }
  exists already_has_lyrics. eexists. split; [reflexivity|].
  split; [reflexivity|]. now intros _ _.
Qed.

(** ** The ledger *)

Lemma load_text (w : World) (s : string) :
  ledger_file w = Text s ->
  load_unsuccessful_fetches w = Ok (list_to_set (lines_read s)).
Proof. unfold load_unsuccessful_fetches. now intros ->. Qed.

(** C9, as the code has it. A missing ledger file gives a [Downloader] with
    an empty ledger, which gates no track; the construction succeeds. Any
    other failure of the read is not caught and ends the construction. *)
Theorem missing_ledger_is_empty (blacklist : list string) (w : World) :
  (ledger_file w = Missing ->
   exists d,
     Downloader_init blacklist w = Ok d /\
     unsuccessful_fetches d = ∅ /\
     forall p keywords,
       downloader p = d -> check_for_existing keywords p = (Ok false, p, []))
  /\ (forall e,
        open_read (ledger_file w) = Raise e ->
        e <> FileNotFoundError ->
        Downloader_init blacklist w = Raise e).
Proof.
  split.
  - intros Hmiss. eexists. split; [|split].
    + unfold Downloader_init, load_unsuccessful_fetches. rewrite Hmiss.
      reflexivity.
    + reflexivity.
    + intros p keywords Hd. rewrite check_for_existing_spec, Hd.
      cbn [unsuccessful_fetches].
      now rewrite bool_decide_eq_false_2 by apply not_elem_of_empty.
  - intros e Hread Hne.
    unfold Downloader_init, load_unsuccessful_fetches. rewrite Hread.
    now destruct e.
Qed.

Lemma write_to_disk_spec (track : string) (p : Process) :
  write_unsuccessful_fetches_to_disk track p =
  match open_append (track +:+ Str.nl) (ledger_file (world p)) with
  | Ok f' => (Ok tt, with_world p (mkWorld f' (existing (world p)) (calls (world p))), [])
  | Raise e => (Raise e, p, [])
  end.
Proof.
  unfold write_unsuccessful_fetches_to_disk, bind, get_world, lift, put_world.
  now destruct (open_append _ _).
Qed.

(** C10, as the code has it. A key without line feed and carriage return,
    appended to a ledger file that is absent, empty or ends in a line feed,
    is a member of the set that the next load yields; and after any append
    that set holds the empty string. *)
Theorem ledger_round_trip :
  (forall (k : string) (p : Process),
     well_formed_ledger (ledger_file (world p)) = true ->
     Str.has_char Str.LF k = false ->
     Str.has_char Str.CR k = false ->
     exists p' fetches,
       write_unsuccessful_fetches_to_disk k p = (Ok tt, p', []) /\
       load_unsuccessful_fetches (world p') = Ok fetches /\
       k ∈ fetches /\ "" ∈ fetches)
  /\ (forall (k : string) (p : Process),
        ledger_file (world p) <> NoAccess ->
        exists p' fetches,
          write_unsuccessful_fetches_to_disk k p = (Ok tt, p', []) /\
          load_unsuccessful_fetches (world p') = Ok fetches /\
          "" ∈ fetches).
Proof.
  assert (Hany : forall (k : string) (p : Process),
    ledger_file (world p) <> NoAccess ->
    exists s,
      write_unsuccessful_fetches_to_disk k p =
        (Ok tt,
         with_world p (mkWorld (Text (s +:+ k +:+ Str.nl))
                         (existing (world p)) (calls (world p))), []) /\
      s = file_text (ledger_file (world p))).
  { intros k p Hf. rewrite write_to_disk_spec.
    destruct (ledger_file (world p)) as [| |s]; [|now contradiction Hf|].
    - now exists "".
    - now exists s. }
  split.
  - intros k p Hwf Hlf Hcr.
    destruct (Hany k p) as (s & Hw & Es).
    { intros E. now rewrite E in Hwf. }
    do 2 eexists. split; [exact Hw|]. split; [now apply load_text|].
    rewrite !elem_of_list_to_set. split.
    + apply lines_read_key; [|exact Hcr|exact Hlf].
      subst s. destruct (ledger_file (world p)) as [| |t]; [now left|discriminate|].
      cbn in Hwf |- *. apply orb_true_iff in Hwf as [E|E]; [left|now right].
      now apply String.eqb_eq.
    + apply lines_read_closed, ends_with_nl_app, key_line_closed.
  - intros k p Hf. destruct (Hany k p Hf) as (s & Hw & _).
    do 2 eexists. split; [exact Hw|]. split; [now apply load_text|].
    rewrite elem_of_list_to_set.
    apply lines_read_closed, ends_with_nl_app, key_line_closed.
Qed.

Lemma ledger_extends_line_count (f f' : file_state) :
  ledger_extends f f' -> line_count f <= line_count f'.
Proof.
  intros [->|[Hf (data & _ & ->)]]; [lia|].
  cbn [line_count]. rewrite count_nl_app.
  destruct f; cbn; lia.
Qed.

(** C1, as the code has it. When the search for a track finds nothing, the
    key and a line feed are appended to the ledger file and the outcome is
    NotFound; the set in memory is not added to, so the key now on disk is
    still not in it. *)
Theorem not_found_goes_to_disk_only
    (filename : list string) (tags : TinyTag) (lyrics : list string) (p : Process) :
  TinyTag_get filename = Some tags ->
  fetch_key tags ∉ unsuccessful_fetches (downloader p) ->
  blacklist_hit tags (blacklisted_genres (downloader p)) = false ->
  with_suffix filename ".lrc" = Ok lyrics ->
  resolve lyrics ∉ existing (world p) ->
  truthy (lrc (search (calls (world p)) (fetch_key tags) (resolve lyrics))) = false ->
  ledger_file (world p) <> NoAccess ->
  exists p' evs,
    evaluate filename p = (Ok (Some NotFound), p', evs) /\
    ledger_file (world p') =
      Text (file_text (ledger_file (world p)) +:+ fetch_key tags +:+ Str.nl) /\
    unsuccessful_fetches (downloader p') = unsuccessful_fetches (downloader p) /\
    fetch_key tags ∉ unsuccessful_fetches (downloader p').
Proof.
  intros Htags Hnew Hhit Hlyrics Habsent Hfound Hf.
  rewrite evaluate_spec, run_spec, Htags, run_tagged_spec, Hlyrics, Hhit.
  rewrite (bool_decide_eq_false_2 _ Hnew), (bool_decide_eq_false_2 _ Habsent).
  cbv zeta. rewrite Hfound.
  destruct (ledger_file (world p)) as [| |s] eqn:Ef; [|now contradiction Hf|];
    cbn [open_append]; do 2 eexists; (split; [reflexivity|]);
    cbn [with_world world downloader ledger_file file_text]; now repeat split.
Qed.

(** C4, as the code has it. An outcome other than NotFound leaves the
    ledger file as it was. NotFound appends the key of the track and one
    line feed; for a key without line feed that is exactly one line, equal
    to the key. Over a file and over a whole crawl the line count of the
    ledger file does not decrease. *)
Theorem ledger_file_changes_on_not_found_only :
  (forall (filename : list string) (p p' : Process) (o : outcome) (evs : list event),
     evaluate filename p = (Ok (Some o), p', evs) ->
     let before := ledger_file (world p) in
     let after := ledger_file (world p') in
     line_count before <= line_count after /\
     (o <> NotFound -> after = before) /\
     (o = NotFound ->
      exists tags,
        TinyTag_get filename = Some tags /\
        after = Text (file_text before +:+ fetch_key tags +:+ Str.nl) /\
        (Str.has_char Str.LF (fetch_key tags) = false ->
         line_count after = S (line_count before) /\
         Str.split_nl (fetch_key tags +:+ Str.nl) = [fetch_key tags; ""])))
  /\ (forall (node : tree) (path : list string) (p p' : Process)
        (r : res unit) (evs : list event),
        recursive_download node path p = (r, p', evs) ->
        line_count (ledger_file (world p)) <= line_count (ledger_file (world p'))).
Proof.
  split.
  - intros filename p p' o evs Hev before after. subst before after. split.
    { rewrite evaluate_spec in Hev.
      destruct (run filename p) as [[[b|e] q] evs'] eqn:Hrun; [|discriminate].
      injection Hev as _ <- _.
      apply run_step in Hrun as (_ & _ & (_ & Hext)).
      now apply ledger_extends_line_count. }
    revert Hev. rewrite evaluate_spec, run_spec.
    destruct (TinyTag_get filename) as [tags|] eqn:Htags; [rewrite run_tagged_spec|];
      split_run; cbn; intros [= <- <- <-]; (split; [try easy|]); try easy.
    intros _. exists tags. split; [reflexivity|].
    destruct (open_append_extends _ _ _ (key_line_closed _) Happend) as [Hf ->].
    split; [reflexivity|]. intros Hline. split.
    + cbn [with_world world ledger_file line_count].
      rewrite !count_nl_app, (count_nl_line _ Hline).
      destruct (ledger_file (world p)); cbn; lia.
    + now rewrite split_nl_closed, (split_nl_line _ Hline).
  - intros node path p p' r evs. rewrite recursive_download_files.
    intros H. apply download_all_step in H as (_ & _ & (_ & Hext)).
    now apply ledger_extends_line_count.
Qed.

(** ** A second crawl *)

Lemma count_events_app (which : event -> bool) (a b : list event) :
  count_events which (a ++ b) = count_events which a + count_events which b.
Proof. unfold count_events. now rewrite List.filter_app, length_app. Qed.

Lemma well_formed_text (f : file_state) :
  well_formed_ledger f = true ->
  f <> NoAccess /\ (file_text f = "" \/ Str.ends_with_nl (file_text f) = true).
Proof.
  destruct f as [| |s]; cbn; [now split; [|left] | discriminate |].
  intros H. split; [discriminate|].
  apply orb_true_iff in H as [E|E]; [left; now apply String.eqb_eq | now right].
Qed.

Lemma ledger_extends_well_formed (f f' : file_state) :
  ledger_extends f f' -> well_formed_ledger f = true -> well_formed_ledger f' = true.
Proof.
  intros [->|(_ & data & Hd & ->)] Hwf; [exact Hwf|].
  cbn. apply orb_true_iff. right. now apply ends_with_nl_app.
Qed.

Lemma ledger_extends_access (f f' : file_state) :
  ledger_extends f f' -> f <> NoAccess -> f' <> NoAccess.
Proof. now intros [->|(_ & data & _ & ->)]. Qed.

(** A line that was written stays where it is when the file grows. *)
Lemma recorded_extends (k : string) (f f' : file_state) :
  ledger_extends f f' -> recorded k f -> recorded k f'.
Proof.
  intros [->|(_ & data & Hd & ->)] (a & b & Hf & Ha & Hb); [now exists a, b|].
  subst f. cbn [file_text]. exists a, (b +:+ data).
  split; [now rewrite !str_app_assoc|]. split; [exact Ha|].
  right. now apply ends_with_nl_app.
Qed.

(** A key without line break that was written as a line is read back. *)
Lemma recorded_is_read (k s : string) :
  plain k -> recorded k (Text s) -> k ∈ lines_read s.
Proof.
  intros [Hlf Hcr] (a & b & [= ->] & Ha & Hb).
  assert (Hk : k ∈ lines_read (a +:+ k +:+ Str.nl)) by now apply lines_read_key.
  destruct Hb as [->|Hb].
  - exact Hk.
  - assert (E : a +:+ k +:+ Str.nl +:+ b = (a +:+ k +:+ Str.nl) +:+ b)
      by now rewrite !str_app_assoc.
    change (k ∈ lines_read (a +:+ k +:+ Str.nl +:+ b)). rewrite E.
    apply lines_read_append; [right | exact Hb | exact Hk].
    apply ends_with_nl_app, key_line_closed.
Qed.

Lemma recorded_loaded (k : string) (w : World) (known : gset string) :
  plain k ->
  recorded k (ledger_file w) ->
  load_unsuccessful_fetches w = Ok known ->
  k ∈ known.
Proof.
  intros Hplain Hrec Hload.
  destruct (ledger_file w) as [| |s] eqn:Ef;
    [now destruct Hrec as (a & b & ? & _) | now destruct Hrec as (a & b & ? & _) |].
  rewrite (load_text _ _ Ef) in Hload. injection Hload as <-.
  apply elem_of_list_to_set. now apply recorded_is_read.
Qed.

Lemma settled_grows (known : gset string) (blacklist : list string)
    (w w' : World) (f : list string) :
  grows w w' -> settled known blacklist w f -> settled known blacklist w' f.
Proof.
  intros (Hsub & Hext). unfold settled.
  destruct (TinyTag_get f) as [tags|]; [|easy].
  intros [H|[H|(l & Hl & [H|[Hn Hr]])]]; [now left | now right; left | |].
  - right; right. exists l. split; [exact Hl|]. left. now apply Hsub.
  - right; right. exists l. split; [exact Hl|]. right. split; [exact Hn|].
    now apply recorded_extends with (ledger_file w).
Qed.

(** A file that [run] has dealt with is settled. *)
Lemma run_settles (f : list string) (p p' : Process) (b : bool) (evs : list event) :
  deterministic -> writes_on_success ->
  well_formed_ledger (ledger_file (world p)) = true ->
  run f p = (Ok b, p', evs) ->
  settled (unsuccessful_fetches (downloader p)) (blacklisted_genres (downloader p))
    (world p') f.
Proof.
  intros Hdet Hsave Hwf. unfold settled. rewrite run_spec.
  destruct (TinyTag_get f) as [tags|]; [|easy].
  rewrite run_tagged_spec. split_run; intros [= <- <- <-].
  - now left.
  - now right; left.
  - right; right. now exists lyrics; split; [|left].
  - right; right. exists lyrics. split; [reflexivity|]. left.
    cbn [with_world world after_search existing].
    rewrite (Hsave _ _ _ Hfound). apply elem_of_union. left.
    now apply elem_of_singleton.
  - right; right. exists lyrics. split; [reflexivity|]. right. split.
    + now rewrite (Hdet 0 (calls (world p))).
    + destruct (open_append_extends _ _ _ (key_line_closed _) Happend) as [_ ->].
      cbn [with_world world after_search ledger_file].
      destruct (well_formed_text _ Hwf) as [_ Ha].
      exists (file_text (ledger_file (world p))), "".
      split; [reflexivity|]. split; [exact Ha | now left].
Qed.

Lemma download_lyrics_run (f : list string) (p q : Process) (evs : list event) :
  download_lyrics f p = (Ok tt, q, evs) ->
  exists b q0, run f p = (Ok b, q0, evs) /\ world q = world q0.
Proof.
  unfold download_lyrics, bind.
  destruct (run f p) as [[[[|]|e] q0] e1]; cbn; [| |discriminate];
    rewrite app_nil_r; intros [= <- <-]; now do 2 eexists.
Qed.

Lemma download_all_settles (fs : list (list string)) (p p' : Process)
    (evs : list event) :
  deterministic -> writes_on_success ->
  well_formed_ledger (ledger_file (world p)) = true ->
  download_all fs p = (Ok tt, p', evs) ->
  forall f, f ∈ fs ->
    settled (unsuccessful_fetches (downloader p)) (blacklisted_genres (downloader p))
      (world p') f.
Proof.
  intros Hdet Hsave. revert p p' evs.
  induction fs as [|f0 rest IH]; intros p p' evs Hwf Hall f Hf.
  { now apply elem_of_nil in Hf. }
  cbn [download_all] in Hall. unfold bind in Hall.
  destruct (download_lyrics f0 p) as [[[[]|e] q] e1] eqn:H0; [|discriminate].
  destruct (download_all rest q) as [[r2 q2] e2] eqn:Hrest.
  injection Hall as -> -> _.
  destruct (download_lyrics_step _ _ _ _ _ H0) as (Hd & _ & (_ & Hext0)).
  apply elem_of_cons in Hf as [->|Hf].
  - apply download_lyrics_run in H0 as (b & q0 & Hrun & Hw).
    apply download_all_step in Hrest as (_ & _ & Hg).
    apply settled_grows with (world q); [exact Hg|].
    rewrite Hw. now apply run_settles with b e1.
  - rewrite <- Hd. apply IH with e2; [|exact Hrest|exact Hf].
    now apply ledger_extends_well_formed with (ledger_file (world p)).
Qed.

(** A settled file is not fetched by a later run whose [Downloader] knows
    at least the keys in [known]. *)
Lemma run_again (f : list string) (q : Process) (known : gset string) (w1 : World) :
  deterministic ->
  settled known (blacklisted_genres (downloader q)) w1 f ->
  known ⊆ unsuccessful_fetches (downloader q) ->
  existing w1 ⊆ existing (world q) ->
  ledger_file (world q) <> NoAccess ->
  exists q' evs, run f q = (Ok false, q', evs).
Proof.
  intros Hdet Hsafe Hknown Hsub Hacc. unfold settled in Hsafe. rewrite run_spec.
  destruct (TinyTag_get f) as [tags|]; [|now do 2 eexists].
  rewrite run_tagged_spec.
  destruct (bool_decide_reflect
              (fetch_key tags ∈ unsuccessful_fetches (downloader q))) as [Hk|Hk];
    [now do 2 eexists|].
  destruct (blacklist_hit tags (blacklisted_genres (downloader q))) eqn:Hhit;
    [now do 2 eexists|].
  destruct Hsafe as [H|[H|(l & -> & Hl)]];
    [contradiction Hk; now apply Hknown | discriminate |].
  destruct (bool_decide_reflect (resolve l ∈ existing (world q))) as [Hin|Hout];
    [now do 2 eexists|].
  destruct Hl as [Hin|[Hnone _]]; [contradiction Hout; now apply Hsub|].
  cbv zeta. rewrite (Hdet _ 0), Hnone.
  destruct (ledger_file (world q)); [|now contradiction Hacc|];
    cbn [open_append]; now do 2 eexists.
Qed.

Lemma download_all_again (fs : list (list string)) (known : gset string)
    (w1 : World) :
  deterministic ->
  forall q : Process,
    (forall f, f ∈ fs -> settled known (blacklisted_genres (downloader q)) w1 f) ->
    known ⊆ unsuccessful_fetches (downloader q) ->
    existing w1 ⊆ existing (world q) ->
    ledger_file (world q) <> NoAccess ->
    exists q' evs,
      download_all fs q = (Ok tt, q', evs) /\ success_count q' = success_count q.
Proof.
  intros Hdet. induction fs as [|f rest IH]; intros q Hsafe Hknown Hsub Hacc.
  { now do 2 eexists. }
  destruct (run_again f q known w1 Hdet) as (q1 & e1 & Hrun); try assumption.
  { apply Hsafe. now left. }
  destruct (run_step _ _ _ _ _ Hrun) as (Hd & Hc & (Hsub1 & Hext)).
  destruct (IH q1) as (q2 & e2 & Hrest & Hc2).
  - intros f' Hf'. rewrite Hd. apply Hsafe. now right.
  - now rewrite Hd.
  - now transitivity (existing (world q)).
  - now apply ledger_extends_access with (ledger_file (world q)).
  - exists q2, (e1 ++ e2). split; [|congruence].
    cbn [download_all]. unfold download_lyrics, bind.
    rewrite Hrun. cbn. now rewrite Hrest, app_nil_r.
Qed.

(** A gated track is skipped: no search, and the process is left as it
    was. *)
Lemma run_gated (f : list string) (tags : TinyTag) (p : Process) :
  TinyTag_get f = Some tags ->
  gated f tags (downloader p) (world p) ->
  exists evs, run f p = (Ok false, p, evs) /\ count_events is_search evs = 0.
Proof.
  intros Htags Hg. rewrite run_spec, Htags, run_tagged_spec.
  destruct (bool_decide_reflect
              (fetch_key tags ∈ unsuccessful_fetches (downloader p))) as [Hk|Hk];
    [eexists; split; reflexivity|].
  destruct (blacklist_hit tags (blacklisted_genres (downloader p))) eqn:Hhit;
    [eexists; split; reflexivity|].
  destruct Hg as [H|[H|(l & -> & Hl)]]; [contradiction | congruence |].
  rewrite (bool_decide_eq_true_2 _ Hl). eexists; split; reflexivity.
Qed.

Lemma download_all_gated (fs : list (list string)) (p : Process) :
  (forall f tags, f ∈ fs -> TinyTag_get f = Some tags ->
     gated f tags (downloader p) (world p)) ->
  exists evs,
    download_all fs p = (Ok tt, p, evs) /\ count_events is_search evs = 0.
Proof.
  induction fs as [|f rest IH]; intros Hg.
  { now exists []. }
  assert (exists e1, run f p = (Ok false, p, e1) /\ count_events is_search e1 = 0)
    as (e1 & Hrun & Hc1).
  { destruct (TinyTag_get f) as [tags|] eqn:Htags.
    - apply run_gated with tags; [exact Htags|]. apply Hg; [now left | exact Htags].
    - rewrite run_spec, Htags. eexists; split; reflexivity. }
  destruct IH as (e2 & Hrest & Hc2).
  { intros f' tags Hf'. apply Hg. now right. }
  exists (e1 ++ e2). split.
  - cbn [download_all]. unfold download_lyrics, bind. rewrite Hrun. cbn.
    now rewrite Hrest, app_nil_r.
  - rewrite count_events_app. lia.
Qed.

(** The set that a second load yields holds the set that the first load
    yielded, when the file was well formed and has only grown. *)
Lemma reload_superset (w0 w1 : World) (known : gset string) :
  well_formed_ledger (ledger_file w0) = true ->
  ledger_extends (ledger_file w0) (ledger_file w1) ->
  load_unsuccessful_fetches w0 = Ok known ->
  exists known', load_unsuccessful_fetches w1 = Ok known' /\ known ⊆ known'.
Proof.
  intros Hwf Hext Hload.
  destruct Hext as [E|(_ & data & Hdata & E)].
  { unfold load_unsuccessful_fetches in *. rewrite E. now exists known. }
  destruct (ledger_file w0) as [| |s] eqn:E0; [| discriminate |].
  - unfold load_unsuccessful_fetches in Hload. rewrite E0 in Hload.
    injection Hload as <-. rewrite (load_text _ _ E).
    eexists. split; [reflexivity|]. apply empty_subseteq.
  - rewrite (load_text _ _ E0) in Hload. injection Hload as <-.
    rewrite (load_text _ _ E). eexists. split; [reflexivity|].
    intros x. rewrite !elem_of_list_to_set. cbn [file_text].
    apply lines_read_append; [|exact Hdata].
    cbn in Hwf. apply orb_true_iff in Hwf as [H|H]; [left|now right].
    now apply String.eqb_eq.
Qed.

(** C3, as the code has it. Let the search be deterministic and write the
    lyrics file whenever it returns lyrics, and let the ledger file be
    absent, empty or end in a line feed when the first crawl starts. If the
    first crawl completes, then a second crawl in the world it left behind,
    over a tree whose files are those of the first tree and files that have
    no tags or whose lyrics file exists, completes with a success count of
    zero. Its ledger in memory is what it loads from the ledger file that
    the first crawl left, and every track whose key holds no line feed and
    no carriage return is gated: its key is in that ledger, or its genre is
    on the blacklist, or its lyrics file exists. When every key is of that
    kind, the second crawl calls the search for no track and leaves the
    world as it found it. *)
Theorem second_crawl_fetches_nothing
    (root : list string) (t t2 : tree) (blacklist : list string)
    (w0 w1 : World) (p1 : Process) (evs1 : list event) :
  deterministic ->
  writes_on_success ->
  well_formed_ledger (ledger_file w0) = true ->
  Crawler_init root t blacklist w0 = (Ok p1, w1, evs1) ->
  (forall f, f ∈ files_of t2 root ->
     f ∈ files_of t root \/
     TinyTag_get f = None \/
     exists l, with_suffix f ".lrc" = Ok l /\ resolve l ∈ existing w1) ->
  exists p2 w2 evs2,
    Crawler_init root t2 blacklist w1 = (Ok p2, w2, evs2) /\
    success_count p2 = 0 /\
    load_unsuccessful_fetches w1 = Ok (unsuccessful_fetches (downloader p2)) /\
    (forall f tags,
       f ∈ files_of t2 root ->
       TinyTag_get f = Some tags ->
       plain (fetch_key tags) ->
       gated f tags (downloader p2) w1) /\
    ((forall f tags,
        f ∈ files_of t2 root ->
        TinyTag_get f = Some tags ->
        plain (fetch_key tags)) ->
     w2 = w1 /\ count_events is_search evs2 = 0).
Proof.
  intros Hdet Hsave Hwf H1 Hfiles. unfold Crawler_init in *.
  unfold Downloader_init in *.
  destruct (load_unsuccessful_fetches w0) as [known|e] eqn:Hload; [|discriminate].
  rewrite recursive_download_files in H1.
  destruct (download_all _ _) as [[[[]|e] q] e1] eqn:Hrun1 in H1; [|discriminate].
  injection H1 as <- <- <-.
  destruct (download_all_step _ _ _ _ _ Hrun1) as (Hd & _ & Hg).
  pose proof (fun H => download_all_settles _ _ _ _ Hdet Hsave H Hrun1) as Hset.
  specialize (Hset Hwf).
  cbn [downloader world unsuccessful_fetches blacklisted_genres] in Hd, Hg, Hset.
  destruct Hg as (Hsub & Hext).
  destruct (reload_superset _ _ _ Hwf Hext Hload) as (known' & Hload' & Hknown).
  rewrite Hload', recursive_download_files.
  set (d2 := mkDownloader "unsuccessful_fetches.txt" known' blacklist
               ["Deezer"; "Lrclib"; "NeatEase"; "Megalobiz"]).
  assert (Hset2 : forall f, f ∈ files_of t2 root ->
            settled known blacklist (world q) f).
  { intros f Hf. destruct (Hfiles f Hf) as [Hin|[Hnone|(l & Hl & Hex)]].
    - now apply Hset.
    - unfold settled. now rewrite Hnone.
    - unfold settled. destruct (TinyTag_get f); [|easy].
      right; right. exists l. split; [exact Hl | now left]. }
  assert (Hgated : forall f tags,
            f ∈ files_of t2 root -> TinyTag_get f = Some tags ->
            plain (fetch_key tags) -> gated f tags d2 (world q)).
  { intros f tags Hf Htags Hplain. specialize (Hset2 f Hf).
    unfold settled in Hset2. rewrite Htags in Hset2.
    destruct Hset2 as [H|[H|(l & Hl & [H|[_ Hr]])]].
    - left. now apply Hknown.
    - right; left. exact H.
    - right; right. now exists l.
    - left. now apply recorded_loaded with (world q). }
  destruct (download_all_again (files_of t2 root) known (world q) Hdet
              (mkProcess 0 d2 (world q))) as (q2 & e2 & Hrun2 & Hc).
  { exact Hset2. }
  { exact Hknown. }
  { reflexivity. }
  { cbn [world]. apply ledger_extends_access with (ledger_file w0); [exact Hext|].
    intros E. now rewrite E in Hwf. }
  rewrite Hrun2.
  destruct (download_all_step _ _ _ _ _ Hrun2) as (Hd2 & _ & _).
  exists q2, (world q2), e2. split; [reflexivity|]. split; [exact Hc|].
  split; [now rewrite Hd2|]. split.
  - intros f tags Hf Htags Hplain. rewrite Hd2. now apply Hgated.
  - intros Hall.
    destruct (download_all_gated (files_of t2 root) (mkProcess 0 d2 (world q)))
      as (e3 & Hrun3 & Hc3).
    { intros f tags Hf Htags. apply Hgated; [exact Hf | exact Htags |].
      now apply Hall with f. }
    rewrite Hrun2 in Hrun3. injection Hrun3 as -> ->. now split.
Qed.

(** ** More about one file *)

Lemma with_suffix_lrc_shape (f l : list string) :
  with_suffix f ".lrc" = Ok l ->
  removelast l = removelast f /\ suffix l = ".lrc" /\ name f <> "".
Proof.
  rewrite with_suffix_lrc_spec.
  destruct (String.eqb_spec (name f) "") as [E|E]; [discriminate|].
  intros [= <-]. split; [apply removelast_last|]. split; [|exact E].
  unfold suffix. rewrite name_snoc.
  apply suffix_of_stem_lrc. now apply stem_of_nonempty.
Qed.

(** X1. [run] returns [True] exactly when the file has tags, its key is not
    in the ledger in memory, its genre is not blacklisted, its lyrics path
    does not exist and the search, asked for the key and the resolved
    lyrics path, returns a non-empty text. A run that returns [True]
    consists of one log record and one search, and changes nothing but
    what the search changed. *)
Theorem run_fetches_exactly_when (filename : list string) (p : Process) :
  ((run filename p).1.1 = Ok true <->
   exists tags lyrics,
     TinyTag_get filename = Some tags /\
     (fetch_key tags ∉ unsuccessful_fetches (downloader p)) /\
     blacklist_hit tags (blacklisted_genres (downloader p)) = false /\
     with_suffix filename ".lrc" = Ok lyrics /\
     (resolve lyrics ∉ existing (world p)) /\
     truthy (lrc (search (calls (world p)) (fetch_key tags) (resolve lyrics))) = true)
  /\ (forall tags lyrics,
        TinyTag_get filename = Some tags ->
        with_suffix filename ".lrc" = Ok lyrics ->
        (run filename p).1.1 = Ok true ->
        run filename p =
          (Ok true,
           with_world p
             (after_search
                (search (calls (world p)) (fetch_key tags) (resolve lyrics))
                (resolve lyrics) (world p)),
           [Log INFO (msg_fetching (title tags) (genre tags));
            SearchCall (fetch_key tags) (resolve lyrics)
              (lyrics_providers (downloader p))])).
Proof.
  split; [split|].
  - rewrite run_spec.
    destruct (TinyTag_get filename) as [tags|] eqn:Htags;
      [rewrite run_tagged_spec|]; split_run; cbn; try discriminate.
    intros _. exists tags, lyrics. now repeat split.
  - intros (tags & lyrics & Htags & Hk & Hhit & Hl & Hnew & Hfound).
    rewrite run_spec, Htags, run_tagged_spec, Hl, Hhit.
    rewrite (bool_decide_eq_false_2 _ Hk), (bool_decide_eq_false_2 _ Hnew).
    cbv zeta. now rewrite Hfound.
  - intros tags lyrics Htags Hl.
    rewrite run_spec, Htags, run_tagged_spec, Hl.
    split_run; cbn; try discriminate. reflexivity.
Qed.

(** What a search event of [run] says about the file. *)
Lemma run_search_event (f : list string) (p : Process)
    (k : string) (save_path : list string) (providers : list string) :
  SearchCall k save_path providers ∈ (run f p).2 ->
  providers = lyrics_providers (downloader p) /\
  (save_path ∉ existing (world p)) /\
  exists tags lyrics,
    TinyTag_get f = Some tags /\ k = fetch_key tags /\
    with_suffix f ".lrc" = Ok lyrics /\ save_path = resolve lyrics.
Proof.
  rewrite run_spec.
  destruct (TinyTag_get f) as [tags|] eqn:Htags; [rewrite run_tagged_spec|];
    split_run; cbn [snd app]; intros Hev;
    repeat (apply elem_of_cons in Hev as [Hev|Hev]; [try discriminate|]);
    try (now apply elem_of_nil in Hev);
    injection Hev as -> -> ->; (split; [reflexivity|]); (split; [assumption|]);
    now exists tags, lyrics.
Qed.

(** X2. [run] never asks the search to write over a path that exists. The
    path it passes is the resolved form of the path of the file with the
    suffix [.lrc], which lies in the directory of the file; the providers
    are those of the [Downloader]. *)
Theorem search_never_overwrites
    (filename : list string) (p : Process)
    (k : string) (save_path : list string) (providers : list string) :
  SearchCall k save_path providers ∈ (run filename p).2 ->
  (save_path ∉ existing (world p)) /\
  (exists lyrics,
     with_suffix filename ".lrc" = Ok lyrics /\
     save_path = resolve lyrics /\
     removelast lyrics = removelast filename /\
     suffix lyrics = ".lrc") /\
  providers = lyrics_providers (downloader p).
Proof.
  intros Hev.
  apply run_search_event in Hev as (Hpr & Hnew & tags & lyrics & _ & _ & Hl & Hs).
  destruct (with_suffix_lrc_shape _ _ Hl) as (Hdir & Hsfx & _).
  split; [exact Hnew|]. split; [|exact Hpr]. now exists lyrics.
Qed.

(** X10. Within a process the contents of the ledger file decide nothing:
    two processes that differ in the ledger file only, both files being
    openable, get the same result, the same events and the same paths from
    [run]. A key written to disk gates no file before the next start. *)
Theorem run_ignores_ledger_file
    (filename : list string) (p : Process) (other : file_state) :
  ledger_file (world p) <> NoAccess ->
  other <> NoAccess ->
  let p2 := with_world p (mkWorld other (existing (world p)) (calls (world p))) in
  (run filename p).1.1 = (run filename p2).1.1 /\
  (run filename p).2 = (run filename p2).2 /\
  existing (world (run filename p).1.2) = existing (world (run filename p2).1.2) /\
  downloader (run filename p).1.2 = downloader (run filename p2).1.2.
Proof.
  intros Hacc Hother p2. subst p2. rewrite !run_spec.
  destruct (TinyTag_get filename) as [tags|]; [|now repeat split].
  rewrite !run_tagged_spec.
  cbn [with_world world downloader existing calls ledger_file success_count].
  destruct (bool_decide _); [now repeat split|].
  destruct (blacklist_hit _ _); [now repeat split|].
  destruct (with_suffix _ _) as [lyrics|e]; [|now repeat split].
  destruct (bool_decide _); [now repeat split|].
  cbv zeta. destruct (truthy _); [now repeat split|].
  destruct (ledger_file (world p)); [|now contradiction Hacc|];
    (destruct other; [|now contradiction Hother|]); now repeat split.
Qed.

(** ** More about the blacklist *)

(** X6. An empty blacklist entry matches every genre: a track that has a
    genre is skipped by it, with one log record and no change of the
    process. The empty string in lower case is the empty string. *)
Theorem empty_entry_blacklists_every_genre
    (tags : TinyTag) (g : string) (p : Process) :
  str_lower "" = "" ->
  genre tags = Some g ->
  "" ∈ blacklisted_genres (downloader p) ->
  check_for_blacklisted_genre tags p =
    (Ok true, p, [Log INFO (msg_genre_skipped (title tags) (Some g))]).
Proof.
  intros Hlow Hg Hin. rewrite check_for_blacklisted_genre_spec.
  assert (blacklist_hit tags (blacklisted_genres (downloader p)) = true) as ->.
  { apply blacklist_hit_spec. exists g, "", (str_lower g), "".
    split; [exact Hg|]. split; [exact Hin|].
    rewrite Hlow. cbn. now rewrite str_app_nil_r. }
  now rewrite Hg.
Qed.

(** X7. The decision of the blacklist depends on the set of its entries
    only: a blacklist that holds every entry of another one skips every
    track that the other one skips, whatever the order and the repetitions
    of the entries; and the check never changes the process. *)
Theorem longer_blacklist_skips_more
    (tags : TinyTag) (p q : Process) :
  (forall entry, entry ∈ blacklisted_genres (downloader p) ->
                 entry ∈ blacklisted_genres (downloader q)) ->
  (check_for_blacklisted_genre tags p).1.1 = Ok true ->
  (check_for_blacklisted_genre tags q).1.1 = Ok true /\
  (check_for_blacklisted_genre tags q).1.2 = q.
Proof.
  intros Hsub. rewrite !check_for_blacklisted_genre_spec. cbn [fst snd].
  intros [= Hhit]. split; [|reflexivity]. f_equal.
  apply blacklist_hit_spec in Hhit as (g & entry & pre & post & Hg & Hin & E).
  apply blacklist_hit_spec. exists g, entry, pre, post. auto.
Qed.

(** ** More about the crawl *)

(** Induction over a tree and the entries of its directories. *)
Lemma tree_entries_ind (P : tree -> Prop) :
  P File ->
  (forall entries, Forall (fun e => P e.2) entries -> P (Dir entries)) ->
  forall node, P node.
Proof.
  intros HF HD. fix IH 1. intros [|entries]; [exact HF|].
  apply HD. induction entries as [|[nm item] es IHes]; constructor.
  - apply IH.
  - exact IHes.
Qed.

Lemma files_of_dir (entries : list (string * tree)) (path f : list string) :
  f ∈ files_of (Dir entries) path <->
  exists nm item, (nm, item) ∈ entries /\ f ∈ files_of item (joinpath path nm).
Proof.
  induction entries as [|[nm item] es IH].
  - cbn. split; [now intros H%elem_of_nil|].
    now intros (nm & item & H%elem_of_nil & _).
  - change (files_of (Dir ((nm, item) :: es)) path)
      with (files_of item (joinpath path nm) ++ files_of (Dir es) path).
    rewrite elem_of_app, IH. split.
    + intros [H|(nm' & item' & Hin & H)].
      * exists nm, item. split; [now left | exact H].
      * exists nm', item'. split; [now right | exact H].
    + intros (nm' & item' & Hin & H). apply elem_of_cons in Hin as [[= -> ->]|Hin].
      * now left.
      * right. now exists nm', item'.
Qed.

(** The paths that [recursive_download] hands on are the files of the tree. *)
Lemma files_of_spec (node : tree) (path f : list string) :
  f ∈ files_of node path <-> file_below node path f.
Proof.
  split.
  - revert path. induction node as [|entries IH] using tree_entries_ind;
      intros path.
    + cbn. intros ->%list_elem_of_singleton. constructor.
    + rewrite files_of_dir. intros (nm & item & Hin & H).
      apply file_in_dir with nm item; [exact Hin|].
      rewrite Forall_forall in IH. now apply (IH (nm, item) Hin).
  - induction 1 as [path|entries path nm item f Hin _ IH].
    + cbn. now apply list_elem_of_singleton.
    + apply files_of_dir. now exists nm, item.
Qed.

(** *** Events of a crawl *)




Lemma download_lyrics_events (f : list string) (p : Process) :
  (download_lyrics f p).2 = (run f p).2 /\
  world (download_lyrics f p).1.2 = world (run f p).1.2 /\
  downloader (download_lyrics f p).1.2 = downloader (run f p).1.2.
Proof.
  unfold download_lyrics, bind.
  destruct (run f p) as [[[[|]|e] q] e1]; cbn; now rewrite ?app_nil_r.
Qed.

(** Every event of a crawl is an event of [run] on one of the files, in a
    process with the [Downloader] of the start. *)
Lemma download_all_event (fs : list (list string)) (p p' : Process)
    (r : res unit) (evs : list event) (ev : event) :
  download_all fs p = (r, p', evs) ->
  ev ∈ evs ->
  exists f q, f ∈ fs /\ downloader q = downloader p /\ ev ∈ (run f q).2.
Proof.
  revert p p' r evs. induction fs as [|f rest IH]; intros p p' r evs.
  { cbn. intros [= <- <- <-] H. now apply elem_of_nil in H. }
  cbn [download_all]. unfold bind.
  destruct (download_lyrics f p) as [[r1 q] e1] eqn:H1.
  destruct (download_lyrics_events f p) as (Hev & _ & _).
  rewrite H1 in Hev. cbn in Hev.
  destruct (download_lyrics_step _ _ _ _ _ H1) as (Hd & _ & _).
  destruct r1 as [[]|e].
  - destruct (download_all rest q) as [[r2 q2] e2] eqn:H2.
    intros [= <- <- <-] Hin. apply elem_of_app in Hin as [Hin|Hin].
    + exists f, p. split; [now left|]. split; [reflexivity|]. now rewrite <- Hev.
    + destruct (IH _ _ _ _ H2 Hin) as (f' & q' & Hf' & Hq' & Hin').
      exists f', q'. split; [now right|]. split; [congruence | exact Hin'].
  - intros [= <- <- <-] Hin.
    exists f, p. split; [now left|]. split; [reflexivity|]. now rewrite <- Hev.
Qed.

Lemma run_not_a_song (f f' : list string) (p : Process) (lvl : level) :
  Log lvl (msg_not_a_song f') ∈ (run f p).2 <->
  lvl = DEBUG /\ f' = f /\ TinyTag_get f = None.
Proof.
  rewrite run_spec. destruct (TinyTag_get f) as [tags|].
  - rewrite run_tagged_spec. split; [|now intros (_ & _ & ?)].
    split_run; cbn [snd app]; intros Hev;
      repeat (apply elem_of_cons in Hev as [Hev|Hev]; [discriminate|]);
      now apply elem_of_nil in Hev.
  - cbn. rewrite list_elem_of_singleton. split.
    + now intros [= -> ->].
    + now intros (-> & -> & _).
Qed.

Lemma download_all_not_a_song (fs : list (list string)) (p p' : Process)
    (evs : list event) (f : list string) :
  download_all fs p = (Ok tt, p', evs) ->
  f ∈ fs -> TinyTag_get f = None ->
  Log DEBUG (msg_not_a_song f) ∈ evs.
Proof.
  revert p p' evs. induction fs as [|f0 rest IH]; intros p p' evs Hall Hf Hnone.
  { now apply elem_of_nil in Hf. }
  cbn [download_all] in Hall. unfold bind in Hall.
  destruct (download_lyrics f0 p) as [[[[]|e] q] e1] eqn:H1; [|discriminate].
  destruct (download_all rest q) as [[r2 q2] e2] eqn:H2.
  injection Hall as -> -> <-. apply elem_of_app.
  apply elem_of_cons in Hf as [->|Hf].
  - left. destruct (download_lyrics_events f0 p) as (Hev & _ & _).
    rewrite H1 in Hev. cbn in Hev. rewrite Hev.
    now apply run_not_a_song.
  - right. now apply IH with q p'.
Qed.

(** X5. A crawl that returns has handed every file of the tree to the tag
    reader, and nothing else: the debug records that name a path as not a
    song are those of the files of the tree that have no tags. *)
Theorem crawl_visits_the_files
    (node : tree) (path : list string) (p p' : Process) (evs : list event)
    (f : list string) :
  recursive_download node path p = (Ok tt, p', evs) ->
  (Log DEBUG (msg_not_a_song f) ∈ evs <->
   file_below node path f /\ TinyTag_get f = None).
Proof.
  rewrite recursive_download_files. intros Hall. split.
  - intros Hev.
    destruct (download_all_event _ _ _ _ _ _ Hall Hev) as (f' & q & Hf' & _ & Hin).
    apply run_not_a_song in Hin as (_ & -> & Hnone).
    split; [now apply files_of_spec | exact Hnone].
  - intros [Hf Hnone]. apply files_of_spec in Hf.
    now apply download_all_not_a_song with (files_of node path) p p'.
Qed.

(** X12. Every search of a crawl is for a file of the tree that has tags:
    it is keyed by the title and the artist of the file, saves to the
    resolved form of the path of the file with the suffix [.lrc], and names
    the providers Deezer, Lrclib, NeatEase and Megalobiz in this order. *)
Theorem crawl_searches_for_the_files
    (path : list string) (node : tree) (blacklist : list string) (w w' : World)
    (r : res Process) (evs : list event)
    (k : string) (save_path : list string) (providers : list string) :
  Crawler_init path node blacklist w = (r, w', evs) ->
  SearchCall k save_path providers ∈ evs ->
  providers = ["Deezer"; "Lrclib"; "NeatEase"; "Megalobiz"] /\
  exists f tags lyrics,
    file_below node path f /\
    TinyTag_get f = Some tags /\
    k = fetch_key tags /\
    with_suffix f ".lrc" = Ok lyrics /\
    save_path = resolve lyrics.
Proof.
  unfold Crawler_init, Downloader_init.
  destruct (load_unsuccessful_fetches w) as [known|e];
    [|intros [= <- <- <-] H; now apply elem_of_nil in H].
  rewrite recursive_download_files.
  destruct (download_all _ _) as [[r1 q] e1] eqn:Hall.
  intros Hres Hev.
  assert (evs = e1) as -> by (destruct r1; now injection Hres).
  destruct (download_all_event _ _ _ _ _ _ Hall Hev) as (f & q' & Hf & Hd & Hin).
  apply run_search_event in Hin as (Hpr & _ & tags & lyrics & Htags & Hk & Hl & Hs).
  split; [now rewrite Hpr, Hd|].
  exists f, tags, lyrics. split; [now apply files_of_spec|]. now repeat split.
Qed.

(** *** What a crawl leaves in the ledger file *)

Lemma download_all_quiet (fs : list (list string)) (p p' : Process)
    (r : res unit) (evs : list event) :
  download_all fs p = (r, p', evs) ->
  count_events is_not_found evs = 0 ->
  ledger_file (world p') = ledger_file (world p).
Proof.
  revert p p' r evs. induction fs as [|f rest IH]; intros p p' r evs.
  { cbn. now intros [= <- <- <-]. }
  cbn [download_all]. unfold download_lyrics, bind.
  assert (Hrun : forall rb q e1, run f p = (rb, q, e1) ->
            count_events is_not_found e1 = 0 ->
            ledger_file (world q) = ledger_file (world p)).
  { intros rb q e1. rewrite run_spec. destruct (TinyTag_get f) as [tags|];
      [rewrite run_tagged_spec|]; split_run; intros [= <- <- <-]; cbn;
      try reflexivity; discriminate. }
  destruct (run f p) as [[rb q] e1] eqn:Hr. specialize (Hrun _ _ _ eq_refl).
  destruct rb as [[|]|e]; cbn.
  - destruct (download_all rest _) as [[r2 q2] e2] eqn:H2.
    intros [= <- <- <-]. rewrite app_nil_r, count_events_app. intros Hz.
    rewrite (IH _ _ _ _ H2) by lia. cbn. apply Hrun. lia.
  - destruct (download_all rest q) as [[r2 q2] e2] eqn:H2.
    intros [= <- <- <-]. rewrite app_nil_r, count_events_app. intros Hz.
    rewrite (IH _ _ _ _ H2) by lia. apply Hrun. lia.
  - intros [= <- <- <-]. exact Hrun.
Qed.

(** X14. A crawl only appends to the ledger file: afterwards the file is as
    it was, or it holds the characters it held, followed by more lines. It
    is as it was whenever no search of the crawl ended with the error
    record. *)
Theorem crawl_appends_to_ledger_only
    (node : tree) (path : list string) (p p' : Process)
    (r : res unit) (evs : list event) :
  recursive_download node path p = (r, p', evs) ->
  (ledger_file (world p') = ledger_file (world p) \/
   (ledger_file (world p) <> NoAccess /\
    exists data,
      Str.ends_with_nl data = true /\
      ledger_file (world p') = Text (file_text (ledger_file (world p)) +:+ data)))
  /\ (count_events is_not_found evs = 0 ->
      ledger_file (world p') = ledger_file (world p)).
Proof.
  rewrite recursive_download_files. intros Hall. split.
  - destruct (download_all_step _ _ _ _ _ Hall) as (_ & _ & (_ & Hext)).
    exact Hext.
  - now apply download_all_quiet with (files_of node path) r.
Qed.

(** ** More about the ledger *)

Lemma has_char_app (c : ascii) (a b : string) :
  Str.has_char c (a +:+ b) = Str.has_char c a || Str.has_char c b.
Proof.
  induction a as [|x a IH]; simpl; [reflexivity|].
  now rewrite IH, orb_assoc.
Qed.

(** A key holds a space, whatever the tags are. *)
Lemma fetch_key_has_space (tags : TinyTag) :
  Str.has_char " " (fetch_key tags) = true.
Proof.
  unfold fetch_key. rewrite !has_char_app. cbn. apply orb_true_r.
Qed.

(** X8. A ledger file without a space on any of its lines gates no track,
    because a key always holds the space between title and artist. So the
    empty string that a load reads after the last line feed, and an empty
    ledger file, skip nothing. *)
Theorem lines_without_space_gate_nothing
    (blacklist : list string) (w : World) (s : string) :
  ledger_file w = Text s ->
  (forall x, x ∈ lines_read s -> Str.has_char " " x = false) ->
  exists d,
    Downloader_init blacklist w = Ok d /\
    unsuccessful_fetches d = list_to_set (lines_read s) /\
    forall (p : Process) (tags : TinyTag),
      downloader p = d ->
      check_for_existing (fetch_key tags) p = (Ok false, p, []).
Proof.
  intros Hf Hlines. unfold Downloader_init. rewrite (load_text _ _ Hf).
  eexists. split; [reflexivity|]. split; [reflexivity|].
  intros p tags Hd. rewrite check_for_existing_spec, Hd.
  cbn [unsuccessful_fetches].
  rewrite bool_decide_eq_false_2; [reflexivity|].
  rewrite elem_of_list_to_set. intros Hin. apply Hlines in Hin.
  now rewrite fetch_key_has_space in Hin.
Qed.

Lemma lines_read_plain_append (s k x : string) :
  s = "" \/ Str.ends_with_nl s = true ->
  Str.has_char Str.CR k = false ->
  Str.has_char Str.LF k = false ->
  x ∈ lines_read (s +:+ k +:+ Str.nl) <-> x = k \/ x = "" \/ x ∈ lines_read s.
Proof.
  intros Hs Hcr Hlf.
  assert (Hk : lines_read (k +:+ Str.nl) = [k; ""]).
  { unfold lines_read, Str.universal_newlines.
    now rewrite (translate_plain_line k Hcr Hlf), split_nl_closed,
      (split_nl_line k Hlf). }
  destruct Hs as [->|Hs].
  - change ("" +:+ k +:+ Str.nl) with (k +:+ Str.nl). rewrite Hk.
    cbn. rewrite !elem_of_cons, elem_of_nil. logic.
  - unfold lines_read, Str.universal_newlines in *.
    rewrite (translate_app_after_nl s _ false Hs).
    destruct (translate_ends_nl s false Hs) as [t Ht]; [discriminate|].
    rewrite Ht, str_app_assoc, split_nl_app_nl, Hk, split_nl_closed.
    rewrite !elem_of_app, !elem_of_cons, !elem_of_nil. logic.
Qed.

(** X9. On a ledger file that is absent, empty or ends in a line feed, the
    append of a key without line feed and carriage return adds that key and
    the empty string to the set of the next load, loses nothing and adds
    nothing else; the append of the same key once more leaves the set of
    the next load as it is. *)
Theorem append_adds_the_key_only (k : string) (p : Process) (known : gset string) :
  well_formed_ledger (ledger_file (world p)) = true ->
  Str.has_char Str.LF k = false ->
  Str.has_char Str.CR k = false ->
  load_unsuccessful_fetches (world p) = Ok known ->
  exists p',
    write_unsuccessful_fetches_to_disk k p = (Ok tt, p', []) /\
    load_unsuccessful_fetches (world p') = Ok ({[k; ""]} ∪ known) /\
    exists p'',
      write_unsuccessful_fetches_to_disk k p' = (Ok tt, p'', []) /\
      load_unsuccessful_fetches (world p'') = Ok ({[k; ""]} ∪ known).
Proof.
  intros Hwf Hlf Hcr Hload.
  assert (Hstep : forall (s : string) (q : Process),
    s = "" \/ Str.ends_with_nl s = true ->
    file_text (ledger_file (world q)) = s ->
    ledger_file (world q) <> NoAccess ->
    exists q',
      write_unsuccessful_fetches_to_disk k q = (Ok tt, q', []) /\
      ledger_file (world q') = Text (s +:+ k +:+ Str.nl) /\
      load_unsuccessful_fetches (world q') =
        Ok ({[k; ""]} ∪ list_to_set (lines_read s))).
  { intros s q Hs Htext Hacc. rewrite write_to_disk_spec.
    assert (open_append (k +:+ Str.nl) (ledger_file (world q)) =
            Ok (Text (s +:+ k +:+ Str.nl))) as ->.
    { destruct (ledger_file (world q)); [|now contradiction Hacc|];
        cbn in *; now subst s. }
    eexists. split; [reflexivity|]. split; [reflexivity|].
    erewrite load_text by reflexivity. f_equal. apply set_eq. intros x.
    rewrite elem_of_union, !elem_of_list_to_set, elem_of_union,
      !elem_of_singleton.
    rewrite (lines_read_plain_append s k x Hs Hcr Hlf). logic. }
  assert (Hs : file_text (ledger_file (world p)) = "" \/
               Str.ends_with_nl (file_text (ledger_file (world p))) = true).
  { destruct (ledger_file (world p)) as [| |s]; [now left|discriminate|].
    cbn in *. apply orb_true_iff in Hwf as [E|E]; [left|now right].
    now apply String.eqb_eq. }
  assert (Hacc : ledger_file (world p) <> NoAccess).
  { intros E. now rewrite E in Hwf. }
  assert (Hknown : {[k; ""]} ∪ list_to_set (lines_read (file_text (ledger_file (world p))))
                   = {[k; ""]} ∪ known).
  { destruct (ledger_file (world p)) as [| |s] eqn:Ef; [|now contradiction Hacc|].
    - unfold load_unsuccessful_fetches in Hload. rewrite Ef in Hload.
      injection Hload as <-. apply set_eq. intros x.
      change (lines_read (file_text Missing)) with [""].
      rewrite !elem_of_union, elem_of_list_to_set, !elem_of_singleton,
        list_elem_of_singleton, elem_of_empty. logic.
    - rewrite (load_text _ _ Ef) in Hload. now injection Hload as <-. }
  destruct (Hstep _ p Hs eq_refl Hacc) as (p' & Hw & Hf' & Hl').
  exists p'. split; [exact Hw|]. split; [now rewrite Hl', Hknown|].
  destruct (Hstep (file_text (ledger_file (world p)) +:+ k +:+ Str.nl) p')
    as (p'' & Hw2 & _ & Hl2).
  - right. apply ends_with_nl_app, key_line_closed.
  - now rewrite Hf'.
  - now rewrite Hf'.
  - exists p''. split; [exact Hw2|]. rewrite Hl2, <- Hknown. f_equal.
    apply set_eq. intros x.
    rewrite !elem_of_union, !elem_of_list_to_set, !elem_of_singleton.
    rewrite (lines_read_plain_append _ k x Hs Hcr Hlf). logic.
Qed.

End Program.

(** * The properties on the small library *)

(** ** C1 *)

(** The claim fails: after a search that found nothing, the key is a line
    of the ledger file and is not in the set in memory. *)
Lemma flushed_key_not_in_memory :
  (evaluate Demo.tags_of Demo.finds_none Plain.lower Plain.resolve Demo.song
     (Demo.process [] [] Demo.fresh)).1.1 = Ok (Some NotFound) /\
  ledger_file
    (world (evaluate Demo.tags_of Demo.finds_none Plain.lower Plain.resolve Demo.song
              (Demo.process [] [] Demo.fresh)).1.2) =
    Text ("Foo Bar" +:+ Str.nl) /\
  "Foo Bar" ∉
    unsuccessful_fetches
      (downloader (evaluate Demo.tags_of Demo.finds_none
          Plain.lower Plain.resolve Demo.song
                     (Demo.process [] [] Demo.fresh)).1.2).
Proof.
  split; [now vm_compute|]. split; [now vm_compute|].
  apply (bool_decide_eq_false_1 _). now vm_compute.
Qed.

Lemma not_found_goes_to_disk_only_witness :
  exists p' evs,
    evaluate Demo.tags_of Demo.finds_none
        Plain.lower Plain.resolve Demo.song (Demo.process [] [] Demo.fresh) =
      (Ok (Some NotFound), p', evs) /\
    ledger_file (world p') = Text ("" +:+ "Foo Bar" +:+ Str.nl) /\
    unsuccessful_fetches (downloader p') = list_to_set [] /\
    "Foo Bar" ∉ unsuccessful_fetches (downloader p').
Proof.
  apply (not_found_goes_to_disk_only Demo.tags_of Demo.finds_none
      Plain.lower Plain.resolve
           Demo.song Demo.song_tags ["music"; "song.lrc"]
           (Demo.process [] [] Demo.fresh)).
  - reflexivity.
  - apply (bool_decide_eq_false_1 _). now vm_compute.
  - reflexivity.
  - reflexivity.
  - apply (bool_decide_eq_false_1 _). now vm_compute.
  - reflexivity.
  - discriminate.
Defined.

(** ** C2 *)

(** The claim fails: for a track without artist the key ends in [None],
    not in the space. *)
Lemma fetch_key_absent_artist :
  fetch_key Demo.solo_tags = "Foo None" /\
  fetch_key Demo.solo_tags <> "Foo" +:+ " " +:+ "".
Proof. split; [reflexivity | discriminate]. Qed.

Lemma fetch_key_title_space_artist_witness :
  fetch_key Demo.song_tags = "Foo" +:+ " " +:+ "Bar".
Proof.
  apply (fetch_key_title_space_artist Demo.tags_of Demo.finds_all
      Plain.lower Plain.resolve
           Demo.song Demo.song_tags "Foo" (Demo.process [] [] Demo.fresh));
    reflexivity.
Defined.

(** ** C3 *)

Module Again.

(** A track whose title holds a carriage return, alone in the directory
    [music]. *)
Definition carol : list string := ["music"; "carol.mp3"].

Definition carol_tags : TinyTag :=
  mkTinyTag (Some (String "a" (String Str.CR "b"))) (Some "c") None.

Definition one_carol : tree := Dir [("carol.mp3", File)].

(** The tags of the small library and of the carol. *)
Definition tags_of (f : list string) : option TinyTag :=
  if decide (f = carol) then Some carol_tags else Demo.tags_of f.

(** A crawl of the directory [music] and the crawl that follows it, in the
    world that the first one left behind. *)
Definition first (search : nat -> string -> list string -> reply)
    (t : tree) (blacklist : list string) (w : World)
    : res Process * World * list event :=
  Crawler_init tags_of search Plain.lower Plain.resolve ["music"] t blacklist w.

Definition second (search : nat -> string -> list string -> reply)
    (t : tree) (blacklist : list string) (w : World)
    : res Process * World * list event :=
  first search t blacklist (first search t blacklist w).1.2.

(** The world after the crawl of the two songs, started without ledger file
    and with a search that finds [Foo Bar] only. *)
Definition left_behind : World :=
  mkWorld (Text ("Hymn Choir" +:+ Str.nl)) {[ ["music"; "song.lrc"] ]} 2.

End Again.

(** The claim fails in four ways.

    The ledger file does not end in a line feed: it holds [Foo Bar],
    unfinished. The first crawl skips the song with that key and appends
    the key of the hymn, which the search does not find, to the same line.
    The second crawl reads one line, [Foo BarHymn Choir], does not know the
    song any more and fetches it.

    The genre of the hymn is on the blacklist: in the second crawl the hymn
    is skipped for its genre; its key is not in the ledger and no lyrics
    file exists.

    The key of the verse holds a line feed: the first crawl writes it as
    two lines, the second crawl reads neither of them as the key and calls
    the search for the verse again.

    The key of the carol holds a carriage return: the first crawl writes
    it as it is, the second crawl reads it as two lines and calls the
    search for the carol again. *)
Lemma second_crawl_not_as_claimed :
  (deterministic Demo.finds_foo /\
   writes_on_success Demo.finds_foo /\
   Demo.successes
     (Again.first Demo.finds_foo Demo.two_songs []
        (mkWorld (Text "Foo Bar") ∅ 0)).1.1 = Some 0 /\
   ledger_file
     (Again.first Demo.finds_foo Demo.two_songs []
        (mkWorld (Text "Foo Bar") ∅ 0)).1.2 =
     Text ("Foo BarHymn Choir" +:+ Str.nl) /\
   Demo.successes
     (Again.second Demo.finds_foo Demo.two_songs []
        (mkWorld (Text "Foo Bar") ∅ 0)).1.1 = Some 1)
  /\ (deterministic Demo.finds_none /\
      writes_on_success Demo.finds_none /\
      Demo.successes
        (Again.first Demo.finds_none Demo.two_songs ["rock"] Demo.fresh).1.1 =
        Some 0 /\
      (Again.second Demo.finds_none Demo.two_songs ["rock"] Demo.fresh).2 =
        [Log INFO (msg_tried_before "Foo Bar");
         Log INFO (msg_genre_skipped (Some "Hymn") (Some "Christian Rock"))] /\
      load_unsuccessful_fetches
        (Again.first Demo.finds_none Demo.two_songs ["rock"] Demo.fresh).1.2 =
        Ok (list_to_set ["Foo Bar"; ""]) /\
      ("Hymn Choir" ∉ (list_to_set ["Foo Bar"; ""] : gset string)) /\
      existing
        (Again.first Demo.finds_none Demo.two_songs ["rock"] Demo.fresh).1.2 = ∅)
  /\ (Demo.successes
        (Again.first Demo.finds_none Demo.one_verse [] Demo.fresh).1.1 = Some 0 /\
      load_unsuccessful_fetches
        (Again.first Demo.finds_none Demo.one_verse [] Demo.fresh).1.2 =
        Ok (list_to_set ["One"; "Two Bar"; ""]) /\
      (fetch_key Demo.verse_tags ∉
         (list_to_set ["One"; "Two Bar"; ""] : gset string)) /\
      existing
        (Again.first Demo.finds_none Demo.one_verse [] Demo.fresh).1.2 = ∅ /\
      Demo.successes
        (Again.second Demo.finds_none Demo.one_verse [] Demo.fresh).1.1 = Some 0 /\
      (Again.second Demo.finds_none Demo.one_verse [] Demo.fresh).2 =
        [Log INFO (msg_fetching (title Demo.verse_tags) None);
         SearchCall (fetch_key Demo.verse_tags) ["music"; "verse.lrc"]
           Demo.providers;
         Log ERROR (msg_not_found (title Demo.verse_tags))])
  /\ (Demo.successes
        (Again.first Demo.finds_none Again.one_carol [] Demo.fresh).1.1 = Some 0 /\
      ledger_file
        (Again.first Demo.finds_none Again.one_carol [] Demo.fresh).1.2 =
        Text (fetch_key Again.carol_tags +:+ Str.nl) /\
      load_unsuccessful_fetches
        (Again.first Demo.finds_none Again.one_carol [] Demo.fresh).1.2 =
        Ok (list_to_set ["a"; "b c"; ""]) /\
      (fetch_key Again.carol_tags ∉
         (list_to_set ["a"; "b c"; ""] : gset string)) /\
      existing
        (Again.first Demo.finds_none Again.one_carol [] Demo.fresh).1.2 = ∅ /\
      Demo.successes
        (Again.second Demo.finds_none Again.one_carol [] Demo.fresh).1.1 = Some 0 /\
      (Again.second Demo.finds_none Again.one_carol [] Demo.fresh).2 =
        [Log INFO (msg_fetching (title Again.carol_tags) None);
         SearchCall (fetch_key Again.carol_tags) ["music"; "carol.lrc"]
           Demo.providers;
         Log ERROR (msg_not_found (title Again.carol_tags))]).
Proof.
  split; [|split; [|split]].
  - split; [now intros n m k s|].
    split; [intros n k s; unfold Demo.finds_foo; now destruct (String.eqb k _)|].
    repeat split; now vm_compute.
  - split; [now intros n m k s|]. split; [now intros n k s|].
    repeat split; try (now vm_compute);
      apply (bool_decide_eq_false_1 _); now vm_compute.
  - repeat split; try (now vm_compute);
      apply (bool_decide_eq_false_1 _); now vm_compute.
  - repeat split; try (now vm_compute);
      apply (bool_decide_eq_false_1 _); now vm_compute.
Qed.

Lemma second_crawl_fetches_nothing_witness :
  exists p2 w2 evs2,
    Crawler_init Demo.tags_of Demo.finds_foo Plain.lower Plain.resolve
      ["music"] Demo.two_songs_later [] Again.left_behind = (Ok p2, w2, evs2) /\
    success_count p2 = 0 /\
    load_unsuccessful_fetches Again.left_behind =
      Ok (unsuccessful_fetches (downloader p2)) /\
    (forall f tags,
       f ∈ files_of Demo.two_songs_later ["music"] ->
       Demo.tags_of f = Some tags ->
       plain (fetch_key tags) ->
       gated Plain.lower Plain.resolve f tags (downloader p2) Again.left_behind) /\
    ((forall f tags,
        f ∈ files_of Demo.two_songs_later ["music"] ->
        Demo.tags_of f = Some tags -> plain (fetch_key tags)) ->
     w2 = Again.left_behind /\ count_events is_search evs2 = 0).
Proof.
  apply (second_crawl_fetches_nothing Demo.tags_of Demo.finds_foo
           Plain.lower Plain.resolve
           ["music"] Demo.two_songs Demo.two_songs_later [] Demo.fresh
           Again.left_behind
           (mkProcess 1
              (mkDownloader "unsuccessful_fetches.txt" ∅ [] Demo.providers)
              Again.left_behind)
           (Crawler_init Demo.tags_of Demo.finds_foo Plain.lower Plain.resolve
              ["music"] Demo.two_songs [] Demo.fresh).2).
  - now intros n m k s.
  - intros n k s. unfold Demo.finds_foo. now destruct (String.eqb k _).
  - reflexivity.
  - now vm_compute.
  - intros f Hf. apply list_elem_of_In in Hf. cbn in Hf.
    destruct Hf as [<-|[<-|[<-|[<-|[]]]]].
    + left. apply list_elem_of_In. cbn. now left.
    + right; left. reflexivity.
    + left. apply list_elem_of_In. cbn. now right; left.
    + right; left. reflexivity.
Defined.

(** ** C4 *)

(** The claim fails for a key that holds a line feed: the title of the
    track has two lines, and the NotFound outcome adds two lines to the
    ledger file, neither of them the key. *)
Lemma not_found_appends_two_lines :
  (evaluate Demo.tags_of Demo.finds_none Plain.lower Plain.resolve Demo.verse
     (Demo.process [] [] Demo.fresh)).1.1 = Ok (Some NotFound) /\
  line_count (ledger_file (world (Demo.process [] [] Demo.fresh))) = 0 /\
  line_count
    (ledger_file
       (world (evaluate Demo.tags_of Demo.finds_none
           Plain.lower Plain.resolve Demo.verse
                 (Demo.process [] [] Demo.fresh)).1.2)) = 2 /\
  Str.split_nl (fetch_key Demo.verse_tags +:+ Str.nl) = ["One"; "Two Bar"; ""].
Proof. repeat split; now vm_compute. Qed.

Lemma ledger_file_changes_on_not_found_only_witness :
  line_count (ledger_file (world (Demo.process [] [] Demo.fresh))) <=
  line_count
    (ledger_file
       (world (evaluate Demo.tags_of Demo.finds_none Plain.lower Plain.resolve Demo.song
                 (Demo.process [] [] Demo.fresh)).1.2)).
Proof.
  apply (proj1 (proj1 (ledger_file_changes_on_not_found_only
                         Demo.tags_of Demo.finds_none Plain.lower Plain.resolve)
                  Demo.song (Demo.process [] [] Demo.fresh)
                  (evaluate Demo.tags_of Demo.finds_none
                      Plain.lower Plain.resolve Demo.song
                     (Demo.process [] [] Demo.fresh)).1.2
                  NotFound
                  (evaluate Demo.tags_of Demo.finds_none
                      Plain.lower Plain.resolve Demo.song
                     (Demo.process [] [] Demo.fresh)).2
                  ltac:(now vm_compute))).
Defined.

(** ** C5 *)

Lemma known_failure_gate_witness :
  evaluate Demo.tags_of Demo.finds_all Plain.lower Plain.resolve Demo.song
    (Demo.process ["Foo Bar"] ["pop"]
       (mkWorld (Text ("Foo Bar" +:+ Str.nl)) {[ ["music"; "song.lrc"] ]} 0)) =
  (Ok (Some (Skipped known_failure)),
   Demo.process ["Foo Bar"] ["pop"]
     (mkWorld (Text ("Foo Bar" +:+ Str.nl)) {[ ["music"; "song.lrc"] ]} 0),
   [Log INFO (msg_tried_before "Foo Bar")]).
Proof.
  apply (known_failure_gate Demo.tags_of Demo.finds_all
      Plain.lower Plain.resolve Demo.song Demo.song_tags).
  - reflexivity.
  - apply (bool_decide_eq_true_1 _). now vm_compute.
Defined.

(** ** C6 *)

(** The claim fails: the genre of the hymn holds the blacklist entry, and
    the outcome is not the blacklist skip, because the key of the hymn is
    in the ledger and that gate comes first. *)
Lemma blacklisted_but_known_failure :
  Str.contains (Plain.lower "rock") (Plain.lower "Christian Rock") = true /\
  (evaluate Demo.tags_of Demo.finds_all Plain.lower Plain.resolve Demo.hymn
     (Demo.process ["Hymn Choir"] ["rock"] Demo.fresh)).1.1 =
    Ok (Some (Skipped known_failure)).
Proof. split; now vm_compute. Qed.

Lemma blacklisted_genre_gate_witness :
  (evaluate Demo.tags_of Demo.finds_all Plain.lower Plain.resolve Demo.hymn
     (Demo.process [] ["rock"] Demo.fresh)).1.1 =
  Ok (Some (Skipped blacklisted_genre)).
Proof.
  apply (proj1 (blacklisted_genre_gate Demo.tags_of Demo.finds_all
      Plain.lower Plain.resolve
                  Demo.hymn Demo.hymn_tags (Demo.process [] ["rock"] Demo.fresh)
                  eq_refl)
           "Christian Rock" eq_refl).
  - apply (bool_decide_eq_false_1 _). now vm_compute.
  - exists "rock", "christian ", "". split; [|reflexivity].
    apply list_elem_of_In. now left.
Defined.

(** ** C7 *)

(** The claim fails: the lyrics file of the song exists, and the outcome is
    the known-failure skip, because the key of the song is in the ledger. *)
Lemma has_lyrics_but_known_failure :
  with_suffix Demo.song ".lrc" = Ok ["music"; "song.lrc"] /\
  (evaluate Demo.tags_of Demo.finds_all Plain.lower Plain.resolve Demo.song
     (Demo.process ["Foo Bar"] []
        (mkWorld Missing {[ ["music"; "song.lrc"] ]} 0))).1.1 =
    Ok (Some (Skipped known_failure)).
Proof. split; now vm_compute. Qed.

Lemma existing_lyrics_gate_witness :
  exists r evs,
    evaluate Demo.tags_of Demo.finds_all Plain.lower Plain.resolve Demo.song
      (Demo.process [] [] (mkWorld Missing {[ ["music"; "song.lrc"] ]} 0)) =
      (Ok (Some (Skipped r)),
       Demo.process [] [] (mkWorld Missing {[ ["music"; "song.lrc"] ]} 0), evs) /\
    forallb (fun ev => negb (is_search ev)) evs = true /\
    ("Foo Bar" ∉ (list_to_set [] : gset string) ->
     blacklist_hit Plain.lower Demo.song_tags [] = false ->
     r = already_has_lyrics /\ evs = [Log INFO (msg_has_lyrics (Some "Foo"))]).
Proof.
  apply (existing_lyrics_gate Demo.tags_of Demo.finds_all
      Plain.lower Plain.resolve Demo.song
           Demo.song_tags ["music"; "song.lrc"]).
  - reflexivity.
  - reflexivity.
  - apply (bool_decide_eq_true_1 _). now vm_compute.
Defined.

(** ** C8 *)

Lemma not_audio_is_skipped_witness :
  evaluate Demo.tags_of Demo.finds_all
      Plain.lower Plain.resolve Demo.notes (Demo.process [] [] Demo.fresh) =
    (Ok (Some (Skipped not_audio)), Demo.process [] [] Demo.fresh,
     [Log DEBUG (msg_not_a_song Demo.notes)])
  /\ download_lyrics Demo.tags_of Demo.finds_all Plain.lower Plain.resolve Demo.notes
       (Demo.process [] [] Demo.fresh) =
       (Ok tt, Demo.process [] [] Demo.fresh,
        [Log DEBUG (msg_not_a_song Demo.notes)]).
Proof.
  apply (not_audio_is_skipped Demo.tags_of Demo.finds_all
      Plain.lower Plain.resolve Demo.notes).
  reflexivity.
Defined.

(** ** C9 *)

(** The claim fails: a ledger file that exists and cannot be opened ends
    the construction with the exception of the read. *)
Lemma unreadable_ledger_ends_construction :
  open_read NoAccess = Raise PermissionError /\
  Downloader_init [] (mkWorld NoAccess ∅ 0) = Raise PermissionError /\
  (Crawler_init Demo.tags_of Demo.finds_all
      Plain.lower Plain.resolve ["music"] Demo.library []
     (mkWorld NoAccess ∅ 0)).1.1 = Raise PermissionError.
Proof. repeat split. Qed.

Lemma missing_ledger_is_empty_witness :
  exists d,
    Downloader_init [] Demo.fresh = Ok d /\
    unsuccessful_fetches d = ∅ /\
    forall p keywords,
      downloader p = d -> check_for_existing keywords p = (Ok false, p, []).
Proof.
  apply (proj1 (missing_ledger_is_empty [] Demo.fresh)). reflexivity.
Defined.

(** ** C10 *)

(** The claim fails twice. A key with a carriage return and no line feed
    is read back as two lines, and a key appended to a file whose last line
    is unfinished is read back glued to that line. *)
Lemma appended_key_not_read_back :
  Str.has_char Str.LF (String "a" (String Str.CR "b")) = false /\
  (write_unsuccessful_fetches_to_disk (String "a" (String Str.CR "b"))
     (Demo.process [] [] Demo.fresh)).1.1 = Ok tt /\
  load_unsuccessful_fetches
    (world (write_unsuccessful_fetches_to_disk (String "a" (String Str.CR "b"))
              (Demo.process [] [] Demo.fresh)).1.2) =
    Ok (list_to_set ["a"; "b"; ""]) /\
  ((String "a" (String Str.CR "b")) ∉ (list_to_set ["a"; "b"; ""] : gset string)) /\
  load_unsuccessful_fetches
    (world (write_unsuccessful_fetches_to_disk "Foo Bar"
              (Demo.process [] [] (mkWorld (Text "abc") ∅ 0))).1.2) =
    Ok (list_to_set ["abcFoo Bar"; ""]) /\
  "Foo Bar" ∉ (list_to_set ["abcFoo Bar"; ""] : gset string).
Proof.
  repeat split; try (now vm_compute);
    apply (bool_decide_eq_false_1 _); now vm_compute.
Qed.

Lemma ledger_round_trip_witness :
  exists p' fetches,
    write_unsuccessful_fetches_to_disk "Foo Bar"
      (Demo.process [] [] (mkWorld (Text ("X Y" +:+ Str.nl)) ∅ 0)) =
      (Ok tt, p', []) /\
    load_unsuccessful_fetches (world p') = Ok fetches /\
    "Foo Bar" ∈ fetches /\ "" ∈ fetches.
Proof.
  apply (proj1 ledger_round_trip "Foo Bar"
           (Demo.process [] [] (mkWorld (Text ("X Y" +:+ Str.nl)) ∅ 0)));
    reflexivity.
Defined.

(** ** The end-to-end scenarios of the specification *)

(** The search succeeds: one success is counted, [song.lrc] exists and no
    ledger file has been written. *)
Example crawl_with_success :
  Crawler_init Demo.tags_of Demo.finds_all
      Plain.lower Plain.resolve ["music"] Demo.library [] Demo.fresh =
  (Ok (mkProcess 1
         (mkDownloader "unsuccessful_fetches.txt" ∅ [] Demo.providers)
         (mkWorld Missing {[ ["music"; "song.lrc"] ]} 1)),
   mkWorld Missing {[ ["music"; "song.lrc"] ]} 1,
   [Log INFO (msg_fetching (Some "Foo") (Some "Pop"));
    SearchCall "Foo Bar" ["music"; "song.lrc"] Demo.providers;
    Log DEBUG (msg_not_a_song Demo.notes)]).
Proof. now vm_compute. Qed.

(** The search finds nothing: no success is counted and the ledger file
    holds the line [Foo Bar]; a second crawl counts no success either and
    does not call the search. *)
Example crawl_without_result :
  Crawler_init Demo.tags_of Demo.finds_none
      Plain.lower Plain.resolve ["music"] Demo.library [] Demo.fresh =
  (Ok (mkProcess 0
         (mkDownloader "unsuccessful_fetches.txt" ∅ [] Demo.providers)
         (mkWorld (Text ("Foo Bar" +:+ Str.nl)) ∅ 1)),
   mkWorld (Text ("Foo Bar" +:+ Str.nl)) ∅ 1,
   [Log INFO (msg_fetching (Some "Foo") (Some "Pop"));
    SearchCall "Foo Bar" ["music"; "song.lrc"] Demo.providers;
    Log ERROR (msg_not_found (Some "Foo"));
    Log DEBUG (msg_not_a_song Demo.notes)])
  /\ Crawler_init Demo.tags_of Demo.finds_none
      Plain.lower Plain.resolve ["music"] Demo.library []
       (mkWorld (Text ("Foo Bar" +:+ Str.nl)) ∅ 1) =
     (Ok (mkProcess 0
            (mkDownloader "unsuccessful_fetches.txt" (list_to_set ["Foo Bar"; ""])
               [] Demo.providers)
            (mkWorld (Text ("Foo Bar" +:+ Str.nl)) ∅ 1)),
      mkWorld (Text ("Foo Bar" +:+ Str.nl)) ∅ 1,
      [Log INFO (msg_tried_before "Foo Bar");
       Log DEBUG (msg_not_a_song Demo.notes)]).
Proof. split; now vm_compute. Qed.

(** * The command line *)

Lemma log_dict_lookup (k : string) :
  Cli.log_dict !! k =
  if decide (k = "DEBUG") then Some 10
  else if decide (k = "INFO") then Some 20
  else if decide (k = "WARNING") then Some 30
  else if decide (k = "ERROR") then Some 40
  else None.
Proof.
  unfold Cli.log_dict. cbn [list_to_map foldr fst snd].
  rewrite !lookup_insert, lookup_empty.
  repeat case_decide; congruence.
Qed.

Lemma check_level_default : Cli.check_level (inr "INFO") = Ok 20.
Proof. now vm_compute. Qed.

(** X11. Whatever name is given as log level, the logger gets one of the
    levels 10, 20, 30 and 40; a name that in upper case is not in the dict
    gives level 20, through the default, which is the name [INFO]. At every
    level the error record of a search without result is shown; the debug
    record of a file that is not a song is shown only when the name in
    upper case is [DEBUG], and the info records are hidden only when it is
    [WARNING] or [ERROR]. *)
Theorem log_level_of_any_name (upper : string -> string) (log_level : string) :
  (exists n,
     Cli.check_level (Cli.LOG_LEVEL upper log_level) = Ok n /\
     (n = 10 \/ n = 20 \/ n = 30 \/ n = 40) /\
     (Cli.log_dict !! upper log_level = None -> n = 20))
  /\ Cli.shown upper log_level ERROR = true
  /\ (Cli.shown upper log_level DEBUG = true <-> upper log_level = "DEBUG")
  /\ (Cli.shown upper log_level INFO = false <->
      upper log_level = "WARNING" \/ upper log_level = "ERROR").
Proof.
  unfold Cli.shown, Cli.LOG_LEVEL. rewrite log_dict_lookup.
  repeat case_decide; rewrite ?check_level_default; cbn;
    (split; [eexists; split; [reflexivity|]; split; [tauto | congruence]|]);
    (split; [reflexivity|]);
    (split; split); try congruence; try tauto; intros [E|E]; congruence.
Qed.

(** * The further properties on the nested library *)

Module SampleRun.

(** The crawl of the shelf, started without ledger file, with a search that
    finds the first song only. *)
Definition start : Process := Sample.process [] [] Sample.fresh.

Definition crawl : res unit * Process * list event :=
  recursive_download Sample.tags_of Sample.finds_one
      Plain.lower Plain.resolve Sample.shelf ["music"] start.

Definition whole : res Process * World * list event :=
  Crawler_init Sample.tags_of Sample.finds_one
      Plain.lower Plain.resolve ["music"] Sample.shelf [] Sample.fresh.

(** The same crawl, started in [/home/user] with the relative path
    [music]. *)
Definition relative : res Process * World * list event :=
  Crawler_init Sample.tags_of Sample.finds_one Plain.lower Plain.from_home
    ["music"] Sample.shelf [] Sample.fresh.

End SampleRun.

Lemma search_never_overwrites_witness :
  (Plain.from_home ["music"; "album"; "one.lrc"] ∉
     existing (world SampleRun.start)) /\
  (exists lyrics,
     with_suffix Sample.one ".lrc" = Ok lyrics /\
     Plain.from_home ["music"; "album"; "one.lrc"] = Plain.from_home lyrics /\
     removelast lyrics = removelast Sample.one /\
     suffix lyrics = ".lrc") /\
  Sample.providers = lyrics_providers (downloader SampleRun.start).
Proof.
  apply (search_never_overwrites Sample.tags_of Sample.finds_one
           Plain.lower Plain.from_home Sample.one SampleRun.start "One Band").
  vm_compute. apply elem_of_cons. right. apply elem_of_cons. now left.
Defined.


Lemma crawl_visits_the_files_witness :
  Log DEBUG (msg_not_a_song Sample.readme) ∈ SampleRun.crawl.2 <->
  file_below Sample.shelf ["music"] Sample.readme /\
  Sample.tags_of Sample.readme = None.
Proof.
  apply (crawl_visits_the_files Sample.tags_of Sample.finds_one
      Plain.lower Plain.resolve Sample.shelf
           ["music"] SampleRun.start SampleRun.crawl.1.2).
  now vm_compute.
Defined.

Lemma empty_entry_blacklists_every_genre_witness :
  check_for_blacklisted_genre Plain.lower Sample.one_tags
    (Sample.process [] [""] Sample.fresh) =
  (Ok true, Sample.process [] [""] Sample.fresh,
   [Log INFO (msg_genre_skipped (Some "One") (Some "Jazz"))]).
Proof.
  apply (empty_entry_blacklists_every_genre Plain.lower Sample.one_tags "Jazz"
           (Sample.process [] [""] Sample.fresh)).
  - reflexivity.
  - reflexivity.
  - apply elem_of_cons. now left.
Defined.

Lemma longer_blacklist_skips_more_witness :
  (check_for_blacklisted_genre Plain.lower Sample.one_tags
     (Sample.process [] ["rock"; "jazz"; "jazz"] Sample.fresh)).1.1 = Ok true /\
  (check_for_blacklisted_genre Plain.lower Sample.one_tags
     (Sample.process [] ["rock"; "jazz"; "jazz"] Sample.fresh)).1.2 =
    Sample.process [] ["rock"; "jazz"; "jazz"] Sample.fresh.
Proof.
  apply (longer_blacklist_skips_more Plain.lower Sample.one_tags
           (Sample.process [] ["jazz"] Sample.fresh)).
  - intros entry Hin. apply elem_of_cons in Hin as [->|Hin].
    + apply elem_of_cons. right. apply elem_of_cons. now left.
    + now apply elem_of_nil in Hin.
  - reflexivity.
Defined.

Lemma lines_without_space_gate_nothing_witness :
  exists d,
    Downloader_init [] (mkWorld (Text "") ∅ 0) = Ok d /\
    unsuccessful_fetches d = list_to_set (lines_read "") /\
    forall (p : Process) (tags : TinyTag),
      downloader p = d ->
      check_for_existing (fetch_key tags) p = (Ok false, p, []).
Proof.
  apply (lines_without_space_gate_nothing [] (mkWorld (Text "") ∅ 0) "").
  - reflexivity.
  - intros x Hx. apply elem_of_cons in Hx as [->|Hx]; [reflexivity|].
    now apply elem_of_nil in Hx.
Defined.

Lemma append_adds_the_key_only_witness :
  exists p',
    write_unsuccessful_fetches_to_disk "One Band"
      (Sample.process [] [] (mkWorld (Text ("X Y" +:+ Str.nl)) ∅ 0)) =
      (Ok tt, p', []) /\
    load_unsuccessful_fetches (world p') =
      Ok ({["One Band"; ""]} ∪ list_to_set ["X Y"; ""]) /\
    exists p'',
      write_unsuccessful_fetches_to_disk "One Band" p' = (Ok tt, p'', []) /\
      load_unsuccessful_fetches (world p'') =
        Ok ({["One Band"; ""]} ∪ list_to_set ["X Y"; ""]).
Proof.
  apply (append_adds_the_key_only "One Band"
           (Sample.process [] [] (mkWorld (Text ("X Y" +:+ Str.nl)) ∅ 0))
           (list_to_set ["X Y"; ""])); reflexivity.
Defined.

Lemma run_ignores_ledger_file_witness :
  (run Sample.tags_of Sample.finds_one
      Plain.lower Plain.resolve Sample.two SampleRun.start).1.1 =
    (run Sample.tags_of Sample.finds_one Plain.lower Plain.resolve Sample.two
       (with_world SampleRun.start
          (mkWorld (Text ("Two Band" +:+ Str.nl)) ∅ 0))).1.1 /\
  (run Sample.tags_of Sample.finds_one
      Plain.lower Plain.resolve Sample.two SampleRun.start).2 =
    (run Sample.tags_of Sample.finds_one Plain.lower Plain.resolve Sample.two
       (with_world SampleRun.start
          (mkWorld (Text ("Two Band" +:+ Str.nl)) ∅ 0))).2 /\
  existing
    (world (run Sample.tags_of Sample.finds_one
        Plain.lower Plain.resolve Sample.two SampleRun.start).1.2) =
    existing
      (world (run Sample.tags_of Sample.finds_one Plain.lower Plain.resolve Sample.two
                (with_world SampleRun.start
                   (mkWorld (Text ("Two Band" +:+ Str.nl)) ∅ 0))).1.2) /\
  downloader (run Sample.tags_of Sample.finds_one
      Plain.lower Plain.resolve Sample.two SampleRun.start).1.2 =
    downloader
      (run Sample.tags_of Sample.finds_one Plain.lower Plain.resolve Sample.two
         (with_world SampleRun.start
            (mkWorld (Text ("Two Band" +:+ Str.nl)) ∅ 0))).1.2.
Proof.
  apply (run_ignores_ledger_file Sample.tags_of Sample.finds_one
      Plain.lower Plain.resolve Sample.two
           SampleRun.start (Text ("Two Band" +:+ Str.nl))); discriminate.
Defined.

Lemma crawl_searches_for_the_files_witness :
  Sample.providers = ["Deezer"; "Lrclib"; "NeatEase"; "Megalobiz"] /\
  exists f tags lyrics,
    file_below Sample.shelf ["music"] f /\
    Sample.tags_of f = Some tags /\
    "Two Band" = fetch_key tags /\
    with_suffix f ".lrc" = Ok lyrics /\
    ["/"; "home"; "user"; "music"; "album"; "two.lrc"] = Plain.from_home lyrics.
Proof.
  apply (crawl_searches_for_the_files Sample.tags_of Sample.finds_one
           Plain.lower Plain.from_home
           ["music"] Sample.shelf [] Sample.fresh
           SampleRun.relative.1.2 SampleRun.relative.1.1 SampleRun.relative.2).
  - now vm_compute.
  - vm_compute. do 4 (apply elem_of_cons; right). apply elem_of_cons. now left.
Defined.

Lemma crawl_appends_to_ledger_only_witness :
  (ledger_file (world SampleRun.crawl.1.2) = ledger_file (world SampleRun.start) \/
   (ledger_file (world SampleRun.start) <> NoAccess /\
    exists data,
      Str.ends_with_nl data = true /\
      ledger_file (world SampleRun.crawl.1.2) =
        Text (file_text (ledger_file (world SampleRun.start)) +:+ data)))
  /\ (count_events is_not_found SampleRun.crawl.2 = 0 ->
      ledger_file (world SampleRun.crawl.1.2) = ledger_file (world SampleRun.start)).
Proof.
  apply (crawl_appends_to_ledger_only Sample.tags_of Sample.finds_one
      Plain.lower Plain.resolve
           Sample.shelf ["music"] SampleRun.start SampleRun.crawl.1.2
           SampleRun.crawl.1.1 SampleRun.crawl.2).
  now vm_compute.
Defined.

(** The crawl of the shelf: the first song is fetched, the second is not
    found and goes to the ledger file. *)
Example crawl_of_the_shelf :
  SampleRun.whole =
  (Ok (mkProcess 1
         (mkDownloader "unsuccessful_fetches.txt" ∅ [] Sample.providers)
         (mkWorld (Text ("Two Band" +:+ Str.nl))
            {[ ["music"; "album"; "one.lrc"] ]} 2)),
   mkWorld (Text ("Two Band" +:+ Str.nl)) {[ ["music"; "album"; "one.lrc"] ]} 2,
   [Log DEBUG (msg_not_a_song Sample.readme);
    Log INFO (msg_fetching (Some "One") (Some "Jazz"));
    SearchCall "One Band" ["music"; "album"; "one.lrc"] Sample.providers;
    Log INFO (msg_fetching (Some "Two") None);
    SearchCall "Two Band" ["music"; "album"; "two.lrc"] Sample.providers;
    Log ERROR (msg_not_found (Some "Two"))]).
Proof. now vm_compute. Qed.
